(** * Text-presence triage of the shitpost-gan dataset scripts

    A shallow embedding of the two OCR filters of the repository,

      - [src/data/filter_no_text.py]  (three-way: none / overlay / meme),
      - [src/filter_no_text.py]       (two-way: has text / has no text),

    of the batch drivers ([main]) that route files with their verdicts, and
    of the two scripts that prepare the files around them,

      - [src/data/flatten_images.py]  (one directory of files named by the
        SHA-1 of their bytes),
      - [src/preprocess_to_256.py]    (padding to a square, resize to
        256 by 256, numbered output names).

    Conventions of the embedding.

      - EasyOCR reports a detection as [(bbox, text, confidence)], the box
        being a list of integer pixel corners: corners are pairs of [Z].
      - Python's [float] values (the ratios and the thresholds) are read as
        exact rationals, in [Q]: the literal [0.08] is 8/100 and no
        operation rounds; [x / y] raises [ZeroDivisionError] when [y] is
        zero, as Python's division does.
      - [min] and [max] of an empty sequence raise [ValueError].
      - The module-level constants of a script are gathered in a record that
        the functions take as an argument; the values written in the script
        are the [DEFAULTS] of that record.
      - The image and the OCR reader are external: a function that receives
        [img] and [reader] in the source receives here what they yield, the
        pixel array's width and height and the list [results].
      - A directory is a finite map from file names to file contents;
        creating a directory and saving a file succeed, and so does
        copying a file whose bytes can be read. A file whose bytes cannot
        be read is [unreadable]: the triage drivers and [preprocess] meet
        such files inside a [try]; [flatten_images], which has none, is
        run on files that can be read.
      - A directory tree that a script walks is the list of the paths the
        walk yields, in that order.
      - [hashlib]'s SHA-1 is a function from bytes to a hexadecimal digest,
        a variable of the development: nothing is assumed of it. *)

From Stdlib Require Import ZArith QArith Lqa Lia.
From stdpp Require Import base option list strings gmap fin_maps pretty.
From Equations Require Equations.

Set Default Proof Using "Type".

(** ** Exceptions *)

Inductive PyError : Type :=
  | ValueError
  | ZeroDivisionError
  | OSError
  | OverflowError.

Inductive Res (A : Type) : Type :=
  | Ok (a : A)
  | Raise (e : PyError).

Arguments Ok {A} a.
Arguments Raise {A} e.

(** Sequencing: an exception ends the computation (there is no handler
    inside the classifiers). *)
#[global] Instance res_bind : MBind Res := λ A B k r,
  match r with
  | Ok a => k a
  | Raise e => Raise e
  end.

Definition raises {A : Type} (r : Res A) : Prop :=
  match r with
  | Ok _ => False
  | Raise _ => True
  end.

(** ** Data model shared by the two scripts *)

(** One entry of [reader.readtext(arr, detail=1, paragraph=False)]. *)
Record Detection : Type := mkDetection {
  bbox : list (Z * Z);
  text : string;
  conf : Q
}.

(** [sum(len(text) for (_, text, _) in results)]: a left-to-right sum
    starting from [0]. *)
Definition total_chars (results : list Detection) : Z :=
  fold_left (fun s d => (s + Z.of_nat (String.length (text d)))%Z) results 0%Z.

(** Builtins [min(xs)] and [max(xs)] on a list of integers. *)
Definition py_min (xs : list Z) : Res Z :=
  match xs with
  | [] => Raise ValueError
  | x :: rest => Ok (fold_left Z.min rest x)
  end.

Definition py_max (xs : list Z) : Res Z :=
  match xs with
  | [] => Raise ValueError
  | x :: rest => Ok (fold_left Z.max rest x)
  end.

(** Builtin [max(a, b)] on two floats: [b] when [b > a], else [a]. *)
Definition py_fmax (a b : Q) : Q :=
  if Qle_bool b a then a else b.

(** True division. *)
Definition py_div (a b : Q) : Res Q :=
  if Qeq_bool b 0 then Raise ZeroDivisionError else Ok (a / b)%Q.

(** Comparison [a >= b] on floats. *)
Definition Qge_bool (a b : Q) : bool := Qle_bool b a.

(** ** Files

    What the drivers see of a file of the source tree. [image] says what
    opening and decoding it give. The bytes of the file may be out of reach
    ([unreadable], a file without read permission for instance):
    [Image.open] raises, and so does [shutil.copy2] on that file. The bytes
    may be read and [Image.open] still raise ([open_fails], a file that is
    no image): the file can be copied. When [Image.open] does not raise,
    the decoding [ImageOps.exif_transpose(img).convert("RGB")], the first
    statement of both classifiers, may still raise; otherwise the pixel
    array has a width and a height and the reader returns [results] on it. *)

Inductive Image : Type :=
  | unreadable
  | open_fails
  | decode_fails
  | pixels (w h : Z) (results : list Detection).

Record Path : Type := mkPath {
  name : string;
  suffix : string;
  is_file : bool;
  contents : string;
  image : Image
}.

(** [str.lower()], on ASCII names. *)
Definition lower_ascii (c : Ascii.ascii) : Ascii.ascii :=
  let n := Ascii.N_of_ascii c in
  if ((65 <=? n) && (n <=? 90))%N then Ascii.ascii_of_N (n + 32) else c.

Fixpoint lower (s : string) : string :=
  match s with
  | EmptyString => EmptyString
  | String c rest => String (lower_ascii c) (lower rest)
  end.

(** [if not out_path.exists(): shutil.copy2(img_path, out_path)], with
    [out_path = dir / img_path.name]. *)
Definition copy_if_absent (img_path : Path) (dir : gmap string string)
    : gmap string string :=
  match dir !! name img_path with
  | Some _ => dir
  | None => <[name img_path := contents img_path]> dir
  end.

(** ** [src/data/filter_no_text.py] *)

Module ThreeWay.

(** The CONFIG block, lines 16 to 27. *)
Record Thresholds : Type := mkThresholds {
  MIN_TOTAL_CHARS : Z;
  MAX_OVERLAY_TOTAL_AREA_RATIO : Q;
  MAX_OVERLAY_REGION_AREA_RATIO : Q;
  MEME_MIN_REGION_AREA_RATIO : Q;
  MEME_MIN_WIDTH_RATIO : Q;
  MEME_MIN_TOTAL_AREA_RATIO : Q;
  MEME_MIN_TOTAL_CHARS : Z
}.

Definition DEFAULTS : Thresholds := {|
  MIN_TOTAL_CHARS := 3;
  MAX_OVERLAY_TOTAL_AREA_RATIO := 8 # 100;
  MAX_OVERLAY_REGION_AREA_RATIO := 4 # 100;
  MEME_MIN_REGION_AREA_RATIO := 10 # 100;
  MEME_MIN_WIDTH_RATIO := 7 # 10;
  MEME_MIN_TOTAL_AREA_RATIO := 20 # 100;
  MEME_MIN_TOTAL_CHARS := 25
|}.

(** The strings ["none"], ["overlay"] and ["meme"]. *)
Inductive Verdict : Type :=
  | v_none
  | v_overlay
  | v_meme.

(** Lines 64 to 70: the axis-aligned box of a detection, as
    [(width, height)]. *)
Definition bbox_dims (d : Detection) : Res (Z * Z) :=
  let xs := map fst (bbox d) in
  let ys := map snd (bbox d) in
  min_x ← py_min xs;
  max_x ← py_max xs;
  min_y ← py_min ys;
  max_y ← py_max ys;
  Ok ((max_x - min_x)%Z, (max_y - min_y)%Z).

(** Line 71. *)
Definition bbox_area (d : Detection) : Res Z :=
  wh ← bbox_dims d;
  Ok (fst wh * snd wh)%Z.

(** The three accumulators of lines 59 to 61. *)
Record Acc : Type := mkAcc {
  total_text_area : Q;
  max_region_area_ratio : Q;
  max_region_width_ratio : Q
}.

Definition acc0 : Acc := mkAcc 0 0 0.

(** One iteration of the loop, lines 63 to 81. *)
Definition loop_body (w : Z) (img_area : Q) (acc : Acc) (d : Detection)
    : Res Acc :=
  wh ← bbox_dims d;
  let width := fst wh in
  let height := snd wh in
  let area := (width * height)%Z in
  if (area <=? 0)%Z then Ok acc
  else
    area_ratio ← py_div (inject_Z area) img_area;
    width_ratio ← py_div (inject_Z width) (inject_Z w);
    Ok {| total_text_area := (total_text_area acc + inject_Z area)%Q;
          max_region_area_ratio :=
            py_fmax (max_region_area_ratio acc) area_ratio;
          max_region_width_ratio :=
            py_fmax (max_region_width_ratio acc) width_ratio |}.

Fixpoint region_loop (w : Z) (img_area : Q) (results : list Detection)
    (acc : Acc) : Res Acc :=
  match results with
  | [] => Ok acc
  | d :: rest =>
      acc' ← loop_body w img_area acc d;
      region_loop w img_area rest acc'
  end.

(** What the rule tests read: the accumulators after the loop and
    [total_area_ratio] of line 83. *)
Record Metrics : Type := mkMetrics {
  m_acc : Acc;
  total_area_ratio : Q
}.

(** Lines 47 and 59 to 83. *)
Definition region_metrics (w h : Z) (results : list Detection)
    : Res Metrics :=
  let img_area := inject_Z (w * h) in
  acc ← region_loop w img_area results acc0;
  ratio ← py_div (total_text_area acc) img_area;
  Ok (mkMetrics acc ratio).

(** Lines 87 to 92. *)
Definition meme_test (T : Thresholds) (chars : Z) (m : Metrics) : bool :=
  Qge_bool (max_region_area_ratio (m_acc m)) (MEME_MIN_REGION_AREA_RATIO T)
  || Qge_bool (max_region_width_ratio (m_acc m)) (MEME_MIN_WIDTH_RATIO T)
  || Qge_bool (total_area_ratio m) (MEME_MIN_TOTAL_AREA_RATIO T)
  || (MEME_MIN_TOTAL_CHARS T <=? chars)%Z.

(** Lines 98 to 101. *)
Definition overlay_test (T : Thresholds) (m : Metrics) : bool :=
  Qle_bool (total_area_ratio m) (MAX_OVERLAY_TOTAL_AREA_RATIO T)
  && Qle_bool (max_region_area_ratio (m_acc m))
              (MAX_OVERLAY_REGION_AREA_RATIO T).

(** Lines 87 to 105. *)
Definition rules (T : Thresholds) (chars : Z) (m : Metrics) : Verdict :=
  if meme_test T chars m then v_meme
  else if overlay_test T m then v_overlay
  else v_meme.

(** Lines 46 to 105 of [classify_text_type]; [w] and [h] are the shape of
    the pixel array and [results] is what the reader returns on it. *)
Definition classify_text_type (T : Thresholds) (w h : Z)
    (results : list Detection) : Res Verdict :=
  match results with
  | [] => Ok v_none
  | _ :: _ =>
      if (total_chars results <? MIN_TOTAL_CHARS T)%Z then Ok v_none
      else
        m ← region_metrics w h results;
        Ok (rules T (total_chars results) m)
  end.

(** Line 13 and [is_image]. *)
Definition ALLOWED_EXTS : gset string :=
  {[ ".png"; ".jpg"; ".jpeg"; ".webp" ]}.

Definition is_image (path : Path) : bool :=
  bool_decide (lower (suffix path) ∈ ALLOWED_EXTS).

(** The state of [main]: the two destination directories and the two
    counters. *)
Record State : Type := mkState {
  DST_DIR : gmap string string;
  REJECTED_DIR : gmap string string;
  num_kept : nat;
  num_rejected : nat
}.

Definition keep (img_path : Path) (st : State) : State :=
  {| DST_DIR := copy_if_absent img_path (DST_DIR st);
     REJECTED_DIR := REJECTED_DIR st;
     num_kept := num_kept st + 1;
     num_rejected := num_rejected st |}.

Definition reject (img_path : Path) (st : State) : State :=
  {| DST_DIR := DST_DIR st;
     REJECTED_DIR := copy_if_absent img_path (REJECTED_DIR st);
     num_kept := num_kept st;
     num_rejected := num_rejected st + 1 |}.

(** One iteration of the loop of [main], lines 128 to 152. Only
    [Image.open] is inside the [try]; an exception of the classifier
    leaves the loop, and is returned with the state reached. So does an
    exception of the handler, lines 130 to 137, whose copy is not
    protected: on a file whose bytes cannot be read [shutil.copy2] raises,
    before [num_rejected] is incremented, unless [REJECTED_DIR] holds a
    file of that name already and no copy is attempted. *)
Definition process (T : Thresholds) (st : State) (img_path : Path)
    : State * option PyError :=
  match image img_path with
  | unreadable =>
      match REJECTED_DIR st !! name img_path with
      | Some _ => (reject img_path st, None)
      | None => (st, Some OSError)
      end
  | open_fails => (reject img_path st, None)
  | decode_fails => (st, Some OSError)
  | pixels w h results =>
      match classify_text_type T w h results with
      | Raise e => (st, Some e)
      | Ok v_none | Ok v_overlay => (keep img_path st, None)
      | Ok v_meme => (reject img_path st, None)
      end
  end.

Fixpoint for_each (T : Thresholds) (all_paths : list Path) (st : State)
    : State * option PyError :=
  match all_paths with
  | [] => (st, None)
  | img_path :: rest =>
      match process T st img_path with
      | (st', None) => for_each T rest st'
      | (st', Some e) => (st', Some e)
      end
  end.

(** [main]: [src] lists what [SRC_DIR.rglob("*")] yields; [dst] and
    [rejected] are the destination directories as the run finds them
    ([mkdir(..., exist_ok=True)] keeps what is there). *)
Definition main (T : Thresholds) (src : list Path)
    (dst rejected : gmap string string) : State * option PyError :=
  let all_paths := List.filter (λ p, is_file p && is_image p) src in
  for_each T all_paths (mkState dst rejected 0 0).

End ThreeWay.

(** ** [src/filter_no_text.py] *)

Module TwoWay.

(** Line 14. *)
Definition DEFAULT_MIN_TOTAL_CHARS : Z := 3.

(** Lines 28 to 31 of [has_text_easyocr]: [True] is "text present". *)
Definition has_text_easyocr (MIN_TOTAL_CHARS : Z)
    (results : list Detection) : bool :=
  (MIN_TOTAL_CHARS <=? total_chars results)%Z.

Definition ALLOWED_EXTS : gset string :=
  {[ ".png"; ".jpg"; ".jpeg"; ".webp" ]}.

Definition is_image (path : Path) : bool :=
  bool_decide (lower (suffix path) ∈ ALLOWED_EXTS).

Record State : Type := mkState {
  DST_DIR : gmap string string;
  num_kept : nat;
  num_rejected : nat
}.

Definition keep (img_path : Path) (st : State) : State :=
  {| DST_DIR := copy_if_absent img_path (DST_DIR st);
     num_kept := num_kept st + 1;
     num_rejected := num_rejected st |}.

Definition reject (st : State) : State :=
  {| DST_DIR := DST_DIR st;
     num_kept := num_kept st;
     num_rejected := num_rejected st + 1 |}.

(** One iteration of the loop of [main], lines 53 to 68. The handler
    copies nothing. *)
Definition process (MIN_TOTAL_CHARS : Z) (st : State) (img_path : Path)
    : State * option PyError :=
  match image img_path with
  | unreadable | open_fails => (reject st, None)
  | decode_fails => (st, Some OSError)
  | pixels _ _ results =>
      if has_text_easyocr MIN_TOTAL_CHARS results
      then (reject st, None)
      else (keep img_path st, None)
  end.

Fixpoint for_each (MIN_TOTAL_CHARS : Z) (all_paths : list Path)
    (st : State) : State * option PyError :=
  match all_paths with
  | [] => (st, None)
  | img_path :: rest =>
      match process MIN_TOTAL_CHARS st img_path with
      | (st', None) => for_each MIN_TOTAL_CHARS rest st'
      | (st', Some e) => (st', Some e)
      end
  end.

Definition main (MIN_TOTAL_CHARS : Z) (src : list Path)
    (dst : gmap string string) : State * option PyError :=
  let all_paths := List.filter (λ p, is_file p && is_image p) src in
  for_each MIN_TOTAL_CHARS all_paths (mkState dst 0 0).

End TwoWay.

(** ** [src/data/flatten_images.py]

    [sha1] stands for [hashlib]'s SHA-1 as a function from the bytes of a
    message to the hexadecimal digest. A hash object is modelled by the
    bytes it has been fed: [update] appends, [hexdigest] applies [sha1].
    The script opens the image files of the walk without a guard: they are
    taken to be readable, and [image] is not consulted. *)

Module Flatten.

Import Equations.Prop.Equations Equations.Prop.Logic.

(** Line 9. *)
Definition IMAGE_EXTS : gset string :=
  {[ ".jpg"; ".jpeg"; ".png"; ".webp"; ".bmp"; ".gif"; ".tiff" ]}.

(** Line 13. *)
Definition is_image (path : Path) : bool :=
  is_file path && bool_decide (lower (suffix path) ∈ IMAGE_EXTS).

(** The first [n] bytes of a string, and the rest. *)
Fixpoint str_take (n : nat) (s : string) : string :=
  match n, s with
  | S n', String c rest => String c (str_take n' rest)
  | _, _ => EmptyString
  end.

Fixpoint str_drop (n : nat) (s : string) : string :=
  match n, s with
  | S n', String c rest => str_drop n' rest
  | _, _ => s
  end.

(** CPython's [PY_SSIZE_T_MAX] on a 64-bit build, and the size of the
    header of a bytes object. *)
Definition PY_SSIZE_T_MAX : Z := 9223372036854775807.
Definition PyBytesObject_SIZE : Z := 33.

(** [f.read(size)] on a binary file opened by [path.open("rb")], of which
    [f] is still to be read: the bytes returned and what remains. A size
    outside the range of a C [ssize_t], or too large for a bytes object,
    raises [OverflowError]; a size below -1 raises [ValueError]; a size of
    -1 reads to the end. For a positive size the reader allocates its
    buffer at once. Whether a large allocation succeeds depends on the
    machine ([MemoryError] when it does not): [read] describes the reads
    whose allocation succeeds, as that of the 8192 bytes of the script
    does wherever the script runs. *)
Definition read (size : Z) (f : string) : Res (string * string) :=
  if ((size <? - PY_SSIZE_T_MAX - 1)
      || (PY_SSIZE_T_MAX - PyBytesObject_SIZE <? size))%Z
  then Raise OverflowError
  else if (size <? -1)%Z then Raise ValueError
  else if (size <? 0)%Z then Ok (f, EmptyString)
  else Ok (str_take (Z.to_nat size) f, str_drop (Z.to_nat size) f).

(** The loop of lines 20 to 24: [h] holds the bytes fed to the hash
    object so far. The loop stops at the first empty chunk. *)
Equations? read_loop (chunk_size : Z) (f : string) (h : string) : Res string
  by wf (String.length f) lt :=
  read_loop chunk_size f h with inspect (read chunk_size f) := {
    | exist _ (Raise err) _ => Raise err
    | exist _ (Ok (EmptyString, _)) _ => Ok h
    | exist _ (Ok (String c chunk, f')) e =>
        read_loop chunk_size f' (h +:+ String c chunk) }.
Proof.
  assert (∀ n s a t, str_take n s = String a t →
            String.length (str_drop n s) < String.length s) as Hdrop.
  { induction n as [|n IH]; intros [|b s] a t; simpl; try discriminate.
    intros _. clear IH. revert s. induction n as [|n IH]; intros [|b' s];
      simpl; try lia. specialize (IH s). lia. }
  unfold read in e.
  destruct ((chunk_size <? - PY_SSIZE_T_MAX - 1)
            || (PY_SSIZE_T_MAX - PyBytesObject_SIZE <? chunk_size))%Z;
    [discriminate|].
  destruct (chunk_size <? -1)%Z; [discriminate|].
  destruct (chunk_size <? 0)%Z.
  - injection e as Hf Hf'. subst. simpl. lia.
  - injection e as Htake Hf'. subst. exact (Hdrop _ _ _ _ Htake).
Qed.

Section Hash.

Variable sha1 : string → string.

(** [sha1_of_file], lines 16 to 25. *)
Definition sha1_of_file (path : Path) (chunk_size : Z) : Res string :=
  h ← read_loop chunk_size (contents path) EmptyString;
  Ok (sha1 h).

(** [s or d] on strings: [d] when [s] is empty. *)
Definition str_or (s d : string) : string :=
  match s with
  | EmptyString => d
  | _ => s
  end.

(** Lines 50 to 52. *)
Definition dst_name (src_path : Path) : Res string :=
  file_hash ← sha1_of_file src_path 8192;
  let ext := str_or (lower (suffix src_path)) ".jpg" in
  Ok (file_hash +:+ ext).

Record State : Type := mkState {
  output_dir : gmap string string;
  count_total : nat;
  count_copied : nat;
  count_skipped : nat
}.

(** One file of the walk, lines 43 to 61. *)
Definition visit (st : State) (src_path : Path) : Res State :=
  if is_image src_path then
    dst_name ← dst_name src_path;
    match output_dir st !! dst_name with
    | Some _ =>
        Ok {| output_dir := output_dir st;
              count_total := count_total st + 1;
              count_copied := count_copied st;
              count_skipped := count_skipped st + 1 |}
    | None =>
        Ok {| output_dir :=
                <[dst_name := contents src_path]> (output_dir st);
              count_total := count_total st + 1;
              count_copied := count_copied st + 1;
              count_skipped := count_skipped st |}
    end
  else Ok st.

(** The loops of lines 40 to 65, over the files of the walk. *)
Fixpoint walk (st : State) (files : list Path) : Res State :=
  match files with
  | [] => Ok st
  | src_path :: rest => st' ← visit st src_path; walk st' rest
  end.

(** [flatten_images], lines 28 to 71. [input_dir] is [None] when the path
    is not a directory, and otherwise lists the files that [os.walk]
    yields, in the order of the walk; [output_dir] is the destination as
    the call finds it. The result holds the three counters printed at the
    end. *)
Definition flatten_images (input_dir : option (list Path))
    (output_dir : gmap string string) : Res State :=
  match input_dir with
  | None => Raise ValueError
  | Some files => walk (mkState output_dir 0 0 0) files
  end.

End Hash.

End Flatten.

(** ** [src/preprocess_to_256.py]

    Of a file, [image] says here what lines 36 to 44 give: [Image.open] or
    one of the conversions raises, or the image, once oriented by
    [ImageOps.exif_transpose], has the size [(w, h)] that line 50 reads. *)

Module Preprocess.

(** Lines 9 to 13. *)
Definition TARGET_RES : Z := 256.
Definition MIN_SIZE : Z := 128.

Definition ALLOWED_EXTS : gset string :=
  {[ ".png"; ".jpg"; ".jpeg"; ".webp" ]}.

Definition is_image (path : Path) : bool :=
  bool_decide (lower (suffix path) ∈ ALLOWED_EXTS).

(** What [img.save] writes, described by what the code asks of the image
    library: the bytes of the [source] file, decoded; the size of the
    canvas before the last resize, the source itself or the gray square it
    is pasted on; the corner [paste_at] where the source sits on that
    canvas; the size of the saved image. *)
Record Saved : Type := mkSaved {
  source : string;
  canvas : Z * Z;
  paste_at : Z * Z;
  saved_size : Z * Z
}.

(** Lines 58 to 65: padding to a square, then the resize. Integer [//] is
    the floor division, [Z.div]. *)
Definition render (source : string) (w h : Z) : Saved :=
  if bool_decide (w ≠ h) then
    let dim := Z.max w h in
    mkSaved source (dim, dim) ((dim - w) / 2, (dim - h) / 2)%Z
            (TARGET_RES, TARGET_RES)
  else mkSaved source (w, h) (0, 0)%Z (TARGET_RES, TARGET_RES).

(** The format specification [08d] on a positive integer: its decimal
    digits, padded with zeros on the left to eight characters. *)
Fixpoint zeros (n : nat) : string :=
  match n with
  | O => EmptyString
  | S n' => "0" +:+ zeros n'
  end.

Definition format_08d (idx : nat) : string :=
  zeros (8 - String.length (pretty idx)) +:+ pretty idx.

(** Line 68. *)
Definition out_name (idx : nat) : string :=
  "img_" +:+ format_08d idx +:+ ".png".

(** The state of [preprocess]: the destination directory, the next value
    of [counter] and the three counters. *)
Record State : Type := mkState {
  DST_DIR : gmap string Saved;
  counter : nat;
  num_input : nat;
  num_saved : nat;
  num_skipped : nat
}.

Definition skip (st : State) : State :=
  {| DST_DIR := DST_DIR st;
     counter := counter st;
     num_input := num_input st + 1;
     num_saved := num_saved st;
     num_skipped := num_skipped st + 1 |}.

(** One iteration of the loop, lines 29 to 74. The [try] covers
    [Image.open] and the conversions; [img.save] replaces a file of the
    same name. *)
Definition process (st : State) (img_path : Path) : State :=
  if negb (is_file img_path) || negb (is_image img_path) then st
  else
    match image img_path with
    | unreadable | open_fails | decode_fails => skip st
    | pixels w h _ =>
        if ((w <? MIN_SIZE) || (h <? MIN_SIZE))%Z then skip st
        else
          let idx := counter st in
          {| DST_DIR :=
               <[out_name idx := render (contents img_path) w h]>
                 (DST_DIR st);
             counter := idx + 1;
             num_input := num_input st + 1;
             num_saved := num_saved st + 1;
             num_skipped := num_skipped st |}
    end.

(** [preprocess]: [src] lists what [SRC_DIR.rglob("*")] yields and [dst]
    is the destination directory as the run finds it; [counter] starts
    at 1. *)
Definition preprocess (src : list Path) (dst : gmap string Saved) : State :=
  foldl process (mkState dst 1 0 0 0) src.

End Preprocess.

(** ** Vocabulary of the statements *)

(** The four corners of an axis-aligned box, in EasyOCR's order. *)
Definition box (x0 y0 x1 y1 : Z) : list (Z * Z) :=
  [(x0, y0); (x1, y0); (x1, y1); (x0, y1)].

(** Componentwise order on the accumulators of the region loop. *)
Definition acc_le (a b : ThreeWay.Acc) : Prop :=
  (ThreeWay.total_text_area a <= ThreeWay.total_text_area b)%Q
  ∧ (ThreeWay.max_region_area_ratio a <= ThreeWay.max_region_area_ratio b)%Q
  ∧ (ThreeWay.max_region_width_ratio a
     <= ThreeWay.max_region_width_ratio b)%Q.

(** What a detection adds to [total_text_area]: the area of its box when
    it is positive, nothing otherwise. *)
Definition region_area (d : Detection) : Z :=
  match ThreeWay.bbox_area d with
  | Ok a => Z.max 0 a
  | Raise _ => 0
  end.

Definition total_region_area (results : list Detection) : Z :=
  foldr (λ d s, region_area d + s)%Z 0%Z results.

(** Equality of accumulators and of loop results up to the value of the
    rationals. *)
Definition acc_eq (a b : ThreeWay.Acc) : Prop :=
  (ThreeWay.total_text_area a == ThreeWay.total_text_area b)%Q
  ∧ (ThreeWay.max_region_area_ratio a == ThreeWay.max_region_area_ratio b)%Q
  ∧ (ThreeWay.max_region_width_ratio a
     == ThreeWay.max_region_width_ratio b)%Q.

Definition res_acc_eq (r r' : Res ThreeWay.Acc) : Prop :=
  match r, r' with
  | Ok a, Ok a' => acc_eq a a'
  | Raise e, Raise e' => e = e'
  | _, _ => False
  end.

(** A detection moved by [(dx, dy)]. *)
Definition shift_detection (dx dy : Z) (d : Detection) : Detection :=
  mkDetection (map (λ p, (p.1 + dx, p.2 + dy)%Z) (bbox d)) (text d) (conf d).

(** The files the three-way driver copies to [DST_DIR], and those it
    copies to [REJECTED_DIR]: the files that are no image, in the handler
    of lines 130 to 137, and the memes. *)
Definition passes (T : ThreeWay.Thresholds) (p : Path) : Prop :=
  ∃ w h results, image p = pixels w h results
    ∧ (ThreeWay.classify_text_type T w h results = Ok ThreeWay.v_none
       ∨ ThreeWay.classify_text_type T w h results = Ok ThreeWay.v_overlay).

Definition refused (T : ThreeWay.Thresholds) (p : Path) : Prop :=
  image p = open_fails
  ∨ ∃ w h results, image p = pixels w h results
      ∧ ThreeWay.classify_text_type T w h results = Ok ThreeWay.v_meme.

(** A file on which the classifier, called outside the [try], raises. *)
Definition breaks (T : ThreeWay.Thresholds) (p : Path) (e : PyError) : Prop :=
  (image p = decode_fails ∧ e = OSError)
  ∨ ∃ w h results, image p = pixels w h results
      ∧ ThreeWay.classify_text_type T w h results = Raise e.

(** The name [flatten_images] gives to a copy: the digest of the bytes of
    the file, then its extension in lower case. *)
Definition hashed_name (sha1 : string → string) (p : Path) : string :=
  sha1 (contents p) +:+ lower (suffix p).

(** The files [preprocess] saves: candidates that decode to an image of
    at least [MIN_SIZE] on each side; and what it saves of them. *)
Definition accepted (p : Path) : bool :=
  is_file p && Preprocess.is_image p
  && match image p with
     | pixels w h _ =>
         negb ((w <? Preprocess.MIN_SIZE) || (h <? Preprocess.MIN_SIZE))%Z
     | _ => false
     end.

Definition rendered (p : Path) : option Preprocess.Saved :=
  match image p with
  | pixels w h _ => Some (Preprocess.render (contents p) w h)
  | _ => None
  end.

(** * Properties *)

(** ** Arithmetic of the model *)

Section Basics.

Local Open Scope Z_scope.

Lemma total_chars_from (results : list Detection) (s : Z) :
  fold_left (fun s d => s + Z.of_nat (String.length (text d))) results s
  = s + total_chars results.
Proof.
  unfold total_chars. revert s.
  induction results as [|d rest IH]; intros s; simpl.
  - lia.
  - rewrite IH. symmetry. rewrite IH. lia.
Qed.

Lemma total_chars_cons (d : Detection) (rest : list Detection) :
  total_chars (d :: rest)
  = Z.of_nat (String.length (text d)) + total_chars rest.
Proof. unfold total_chars at 1. simpl. apply total_chars_from. Qed.

Lemma total_chars_app (l1 l2 : list Detection) :
  total_chars (l1 ++ l2) = total_chars l1 + total_chars l2.
Proof.
  induction l1 as [|d rest IH]; simpl.
  - reflexivity.
  - rewrite !total_chars_cons, IH. lia.
Qed.

Lemma total_chars_nonneg (results : list Detection) :
  0 <= total_chars results.
Proof.
  induction results as [|d rest IH].
  - reflexivity.
  - rewrite total_chars_cons. lia.
Qed.

(** The counter is the sum of the lengths, whatever the order of
    summation. *)
Lemma total_chars_sum_list (results : list Detection) :
  total_chars results
  = Z.of_nat (sum_list ((λ d, String.length (text d)) <$> results)).
Proof.
  induction results as [|d rest IH].
  - reflexivity.
  - rewrite total_chars_cons, IH, fmap_cons.
    change (sum_list (?x :: ?l)) with (x + sum_list l)%nat.
    rewrite Nat2Z.inj_add. reflexivity.
Qed.

End Basics.

Section Rationals.

Local Open Scope Q_scope.

Lemma Qge_bool_iff (a b : Q) : Qge_bool a b = true ↔ b <= a.
Proof. unfold Qge_bool. apply Qle_bool_iff. Qed.

Lemma Qle_bool_false (a b : Q) : Qle_bool a b = false ↔ b < a.
Proof.
  rewrite <- not_true_iff_false, Qle_bool_iff. split.
  - apply Qnot_le_lt.
  - apply Qlt_not_le.
Qed.

Lemma py_fmax_l (a b : Q) : a <= py_fmax a b.
Proof.
  unfold py_fmax. destruct (Qle_bool b a) eqn:E.
  - apply Qle_refl.
  - apply Qle_bool_false in E. apply Qlt_le_weak, E.
Qed.

Lemma py_fmax_r (a b : Q) : b <= py_fmax a b.
Proof.
  unfold py_fmax. destruct (Qle_bool b a) eqn:E.
  - apply Qle_bool_iff, E.
  - apply Qle_refl.
Qed.

Lemma py_div_ok (a b : Q) : ¬ b == 0 → py_div a b = Ok (a / b).
Proof.
  intros Hb. unfold py_div.
  destruct (Qeq_bool b 0) eqn:E; [|reflexivity].
  apply Qeq_bool_iff in E. contradiction.
Qed.

Lemma py_div_zero (a b : Q) : b == 0 → py_div a b = Raise ZeroDivisionError.
Proof.
  intros Hb. unfold py_div. apply Qeq_bool_iff in Hb. rewrite Hb.
  reflexivity.
Qed.

Lemma inject_Z_nonzero (z : Z) : z ≠ 0%Z → ¬ inject_Z z == 0.
Proof.
  intros Hz E. apply Hz. unfold Qeq in E. simpl in E. lia.
Qed.

Lemma inject_Z_zero (z : Z) : z = 0%Z → inject_Z z == 0.
Proof. intros ->. reflexivity. Qed.

End Rationals.

(** ** The three-way classifier *)

Section ThreeWayClassifier.

Import ThreeWay.
Local Open Scope Z_scope.

Variable T : Thresholds.

Lemma classify_nil (w h : Z) : classify_text_type T w h [] = Ok v_none.
Proof. reflexivity. Qed.

Lemma classify_below_floor (w h : Z) (results : list Detection) :
  total_chars results < MIN_TOTAL_CHARS T →
  classify_text_type T w h results = Ok v_none.
Proof.
  intros Hlt. unfold classify_text_type.
  destruct results as [|d rest]; [reflexivity|].
  apply Z.ltb_lt in Hlt. rewrite Hlt. reflexivity.
Qed.

(** Once the two early returns are passed, the verdict is what the rule
    list says of the metrics. *)
Lemma classify_rules (w h : Z) (results : list Detection) (m : Metrics) :
  results ≠ [] →
  MIN_TOTAL_CHARS T <= total_chars results →
  region_metrics w h results = Ok m →
  classify_text_type T w h results = Ok (rules T (total_chars results) m).
Proof.
  intros Hne Hge Hm. unfold classify_text_type.
  destruct results as [|d rest]; [congruence|].
  apply Z.ltb_ge in Hge. rewrite Hge, Hm. reflexivity.
Qed.

Lemma meme_test_true_iff (chars : Z) (m : Metrics) :
  meme_test T chars m = true ↔
    (MEME_MIN_REGION_AREA_RATIO T <= max_region_area_ratio (m_acc m))%Q
    ∨ (MEME_MIN_WIDTH_RATIO T <= max_region_width_ratio (m_acc m))%Q
    ∨ (MEME_MIN_TOTAL_AREA_RATIO T <= total_area_ratio m)%Q
    ∨ MEME_MIN_TOTAL_CHARS T <= chars.
Proof.
  unfold meme_test.
  rewrite !orb_true_iff, !Qge_bool_iff, Z.leb_le. tauto.
Qed.

Lemma classify_meme_test (w h : Z) (results : list Detection) (m : Metrics) :
  results ≠ [] →
  MIN_TOTAL_CHARS T <= total_chars results →
  region_metrics w h results = Ok m →
  meme_test T (total_chars results) m = true →
  classify_text_type T w h results = Ok v_meme.
Proof.
  intros Hne Hge Hm Hmeme.
  rewrite (classify_rules w h results m Hne Hge Hm).
  unfold rules. rewrite Hmeme. reflexivity.
Qed.

Lemma overlay_test_true_iff (m : Metrics) :
  overlay_test T m = true ↔
    (total_area_ratio m <= MAX_OVERLAY_TOTAL_AREA_RATIO T)%Q
    ∧ (max_region_area_ratio (m_acc m)
       <= MAX_OVERLAY_REGION_AREA_RATIO T)%Q.
Proof.
  unfold overlay_test. rewrite andb_true_iff, !Qle_bool_iff. tauto.
Qed.

End ThreeWayClassifier.

(** ** The region loop *)

Section RegionLoop.

Import ThreeWay.
Local Open Scope Z_scope.

Lemma fold_left_min_spec (rest : list Z) (x : Z) :
  fold_left Z.min rest x ∈ x :: rest
  ∧ ∀ y, y ∈ x :: rest → fold_left Z.min rest x <= y.
Proof.
  revert x. induction rest as [|a rest IH]; intros x; simpl.
  - split; [left|]. intros y Hy.
    apply list_elem_of_singleton in Hy. lia.
  - destruct (IH (Z.min x a)) as [Hin Hlb].
    assert (fold_left Z.min rest (Z.min x a) <= Z.min x a) as Hmin
      by (apply Hlb; left).
    split.
    + rewrite !elem_of_cons. apply elem_of_cons in Hin as [->|Hin]; [|tauto].
      destruct (Z.min_spec x a) as [[_ ->]|[_ ->]]; tauto.
    + intros y Hy. rewrite !elem_of_cons in Hy.
      destruct Hy as [->|[->|Hy]]; [lia|lia|].
      apply Hlb. right. exact Hy.
Qed.

Lemma fold_left_max_spec (rest : list Z) (x : Z) :
  fold_left Z.max rest x ∈ x :: rest
  ∧ ∀ y, y ∈ x :: rest → y <= fold_left Z.max rest x.
Proof.
  revert x. induction rest as [|a rest IH]; intros x; simpl.
  - split; [left|]. intros y Hy.
    apply list_elem_of_singleton in Hy. lia.
  - destruct (IH (Z.max x a)) as [Hin Hub].
    assert (Z.max x a <= fold_left Z.max rest (Z.max x a)) as Hmax
      by (apply Hub; left).
    split.
    + rewrite !elem_of_cons. apply elem_of_cons in Hin as [->|Hin]; [|tauto].
      destruct (Z.max_spec x a) as [[_ ->]|[_ ->]]; tauto.
    + intros y Hy. rewrite !elem_of_cons in Hy.
      destruct Hy as [->|[->|Hy]]; [lia|lia|].
      apply Hub. right. exact Hy.
Qed.

(** [py_min] and [py_max] return the least and the greatest element. *)
Lemma py_min_spec (xs : list Z) (v : Z) :
  py_min xs = Ok v → v ∈ xs ∧ ∀ y, y ∈ xs → v <= y.
Proof.
  destruct xs as [|x rest]; [discriminate|].
  intros [= <-]. apply fold_left_min_spec.
Qed.

Lemma py_max_spec (xs : list Z) (v : Z) :
  py_max xs = Ok v → v ∈ xs ∧ ∀ y, y ∈ xs → y <= v.
Proof.
  destruct xs as [|x rest]; [discriminate|].
  intros [= <-]. apply fold_left_max_spec.
Qed.

(** The sides of the box around the corners are never negative, so an
    area that is not positive is zero. *)
Lemma bbox_dims_nonneg (d : Detection) (bw bh : Z) :
  bbox_dims d = Ok (bw, bh) → 0 <= bw ∧ 0 <= bh.
Proof.
  unfold bbox_dims.
  destruct (py_min (map fst (bbox d))) as [min_x|] eqn:Hminx; [|discriminate].
  destruct (py_max (map fst (bbox d))) as [max_x|] eqn:Hmaxx; [|discriminate].
  destruct (py_min (map snd (bbox d))) as [min_y|] eqn:Hminy; [|discriminate].
  destruct (py_max (map snd (bbox d))) as [max_y|] eqn:Hmaxy; [|discriminate].
  simpl. intros [= <- <-].
  apply py_min_spec in Hminx as [Hx _], Hminy as [Hy _].
  apply py_max_spec in Hmaxx as [_ Hx'], Hmaxy as [_ Hy'].
  specialize (Hx' _ Hx). specialize (Hy' _ Hy). lia.
Qed.

Lemma bbox_dims_nil (d : Detection) :
  bbox d = [] → bbox_dims d = Raise ValueError.
Proof. intros E. unfold bbox_dims. rewrite E. reflexivity. Qed.

Lemma bbox_dims_cons (d : Detection) :
  bbox d ≠ [] → ∃ bw bh, bbox_dims d = Ok (bw, bh).
Proof.
  intros Hne. unfold bbox_dims.
  destruct (bbox d) as [|[x y] rest]; [congruence|].
  simpl. eauto.
Qed.

Lemma bbox_area_dims (d : Detection) (a : Z) :
  bbox_area d = Ok a ↔ ∃ bw bh, bbox_dims d = Ok (bw, bh) ∧ a = bw * bh.
Proof.
  unfold bbox_area. destruct (bbox_dims d) as [[bw bh]|e]; simpl.
  - split.
    + intros [= <-]. eauto.
    + intros (bw' & bh' & [= <- <-] & ->). reflexivity.
  - split; [discriminate|]. intros (? & ? & [=] & _).
Qed.

Lemma loop_body_skip (w : Z) (img_area : Q) (acc : Acc) (d : Detection)
    (a : Z) :
  bbox_area d = Ok a → a <= 0 → loop_body w img_area acc d = Ok acc.
Proof.
  intros Ha Hle. apply bbox_area_dims in Ha as (bw & bh & Hd & ->).
  unfold loop_body. rewrite Hd. simpl.
  apply Z.leb_le in Hle. rewrite Hle. reflexivity.
Qed.

Lemma loop_body_region (w : Z) (img_area : Q) (acc : Acc) (d : Detection)
    (bw bh : Z) :
  bbox_dims d = Ok (bw, bh) → 0 < bw * bh → w ≠ 0 → ¬ (img_area == 0)%Q →
  loop_body w img_area acc d
  = Ok {| total_text_area := (total_text_area acc + inject_Z (bw * bh))%Q;
          max_region_area_ratio :=
            py_fmax (max_region_area_ratio acc)
                    (inject_Z (bw * bh) / img_area)%Q;
          max_region_width_ratio :=
            py_fmax (max_region_width_ratio acc)
                    (inject_Z bw / inject_Z w)%Q |}.
Proof.
  intros Hd Hpos Hw HA. unfold loop_body. rewrite Hd. simpl.
  apply Z.leb_gt in Hpos. rewrite Hpos.
  rewrite (py_div_ok _ _ HA), (py_div_ok _ _ (inject_Z_nonzero w Hw)).
  reflexivity.
Qed.

Lemma region_loop_app (w : Z) (img_area : Q) (l1 l2 : list Detection)
    (acc : Acc) :
  region_loop w img_area (l1 ++ l2) acc
  = acc' ← region_loop w img_area l1 acc; region_loop w img_area l2 acc'.
Proof.
  revert acc. induction l1 as [|d rest IH]; intros acc; simpl.
  - reflexivity.
  - destruct (loop_body w img_area acc d) as [acc'|e]; simpl.
    + apply IH.
    + reflexivity.
Qed.

Lemma acc_le_refl (a : Acc) : acc_le a a.
Proof. repeat split; apply Qle_refl. Qed.

(** On an image with positive sides, an iteration on a detection with at
    least one corner raises nothing, and the accumulators never decrease. *)
Lemma loop_body_total (w h : Z) (acc : Acc) (d : Detection) :
  0 < w → 0 < h → bbox d ≠ [] →
  ∃ acc', loop_body w (inject_Z (w * h)) acc d = Ok acc' ∧ acc_le acc acc'.
Proof.
  intros Hw Hh Hne.
  destruct (bbox_dims_cons d Hne) as (bw & bh & Hd).
  destruct (Z_le_gt_dec (bw * bh) 0) as [Hle|Hgt].
  - exists acc. split; [|apply acc_le_refl].
    apply (loop_body_skip _ _ _ _ (bw * bh)); [|exact Hle].
    apply bbox_area_dims. eauto.
  - eexists. split.
    + apply (loop_body_region _ _ _ _ bw bh); [exact Hd|lia|lia|].
      apply inject_Z_nonzero. nia.
    + repeat split; simpl.
      * assert (0 <= inject_Z (bw * bh))%Q
          by (rewrite <- (Zle_Qle 0); lia).
        lra.
      * apply py_fmax_l.
      * apply py_fmax_l.
Qed.

Lemma region_loop_total (w h : Z) (results : list Detection) (acc : Acc) :
  0 < w → 0 < h → Forall (λ d, bbox d ≠ []) results →
  ∃ acc', region_loop w (inject_Z (w * h)) results acc = Ok acc'
          ∧ acc_le acc acc'.
Proof.
  intros Hw Hh Hall. revert acc.
  induction Hall as [|d rest Hd _ IH]; intros acc; simpl.
  - exists acc. split; [reflexivity|apply acc_le_refl].
  - destruct (loop_body_total w h acc d Hw Hh Hd) as (acc1 & -> & Hle1).
    simpl. destruct (IH acc1) as (acc2 & -> & Hle2).
    exists acc2. split; [reflexivity|].
    destruct Hle1 as (? & ? & ?), Hle2 as (? & ? & ?).
    repeat split; eapply Qle_trans; eauto.
Qed.

(** With positive sides and well-formed detections the metrics exist. *)
Lemma region_metrics_total (w h : Z) (results : list Detection) :
  0 < w → 0 < h → Forall (λ d, bbox d ≠ []) results →
  ∃ m, region_metrics w h results = Ok m.
Proof.
  intros Hw Hh Hall. unfold region_metrics.
  destruct (region_loop_total w h results acc0 Hw Hh Hall) as (acc & -> & _).
  simpl. rewrite py_div_ok by (apply inject_Z_nonzero; nia).
  simpl. eauto.
Qed.

Lemma classify_total (T : Thresholds) (w h : Z) (results : list Detection) :
  0 < w → 0 < h → Forall (λ d, bbox d ≠ []) results →
  ∃ v, classify_text_type T w h results = Ok v.
Proof.
  intros Hw Hh Hall. unfold classify_text_type.
  destruct results as [|d rest]; [eauto|].
  destruct (_ <? _); [eauto|].
  destruct (region_metrics_total w h _ Hw Hh Hall) as (m & ->).
  simpl. eauto.
Qed.

End RegionLoop.

(** ** The decision list *)

Section DecisionList.

Import ThreeWay.
Local Open Scope Z_scope.

(** C2. On an image with positive width and height, under every threshold
    configuration, an empty detection list, or one whose text lengths sum
    to less than [MIN_TOTAL_CHARS], is classified "none", whatever the
    boxes of the detections are. *)
Theorem none_without_enough_text (T : Thresholds) (w h : Z)
    (results : list Detection) :
  0 < w → 0 < h →
  results = [] ∨ total_chars results < MIN_TOTAL_CHARS T →
  classify_text_type T w h results = Ok v_none.
Proof.
  intros _ _ [->|Hlt].
  - apply classify_nil.
  - apply classify_below_floor, Hlt.
Qed.

Lemma none_without_enough_text_witness :
  0 < 100 ∧ 0 < 100
  ∧ total_chars [mkDetection (box 0 0 100 100) "hi" 1]
    < MIN_TOTAL_CHARS DEFAULTS
  ∧ classify_text_type DEFAULTS 100 100
      [mkDetection (box 0 0 100 100) "hi" 1] = Ok v_none.
Proof.
  split; [lia|]. split; [lia|]. split; [reflexivity|].
  apply none_without_enough_text; [lia|lia|].
  right. reflexivity.
Defined.

(** C3. For a non-empty detection list with at least [MIN_TOTAL_CHARS]
    characters, any one of the four meme conditions on the metrics gives
    the verdict "meme". The meme test is tried before the overlay test:
    metrics that are also within both overlay ceilings are "meme", not
    "overlay". The metrics [m] are those the region loop computes; they
    exist whenever the image has positive sides and every detection has a
    corner ([region_metrics_total]). *)
Theorem meme_test_wins (T : Thresholds) (w h : Z)
    (results : list Detection) (m : Metrics) :
  results ≠ [] →
  MIN_TOTAL_CHARS T <= total_chars results →
  region_metrics w h results = Ok m →
  (MEME_MIN_REGION_AREA_RATIO T <= max_region_area_ratio (m_acc m))%Q
  ∨ (MEME_MIN_WIDTH_RATIO T <= max_region_width_ratio (m_acc m))%Q
  ∨ (MEME_MIN_TOTAL_AREA_RATIO T <= total_area_ratio m)%Q
  ∨ MEME_MIN_TOTAL_CHARS T <= total_chars results →
  classify_text_type T w h results = Ok v_meme
  ∧ ((total_area_ratio m <= MAX_OVERLAY_TOTAL_AREA_RATIO T)%Q
     ∧ (max_region_area_ratio (m_acc m)
        <= MAX_OVERLAY_REGION_AREA_RATIO T)%Q →
     classify_text_type T w h results ≠ Ok v_overlay).
Proof.
  intros Hne Hge Hm Hmeme.
  apply meme_test_true_iff in Hmeme.
  rewrite (classify_meme_test T w h results m Hne Hge Hm Hmeme).
  split; [reflexivity|discriminate].
Qed.

(** A strip 80 pixels wide and 2 high on a 100 by 100 image: within both
    overlay ceilings, and as wide as a meme caption. *)
Lemma meme_test_wins_witness :
  ∃ m, region_metrics 100 100 [mkDetection (box 0 10 80 12) "abc" 1] = Ok m
    ∧ overlay_test DEFAULTS m = true
    ∧ classify_text_type DEFAULTS 100 100
        [mkDetection (box 0 10 80 12) "abc" 1] = Ok v_meme.
Proof.
  eexists. split; [reflexivity|]. split; [reflexivity|].
  eapply meme_test_wins.
  - discriminate.
  - vm_compute. discriminate.
  - reflexivity.
  - right. left. vm_compute. discriminate.
Defined.

(** C4. For a non-empty detection list with at least [MIN_TOTAL_CHARS]
    characters and none of the four meme conditions, the verdict is
    "overlay" exactly when the total area ratio and the largest region
    area ratio are both within their overlay ceilings; otherwise it is
    "meme"; it is never "none". The metrics [m] are those the region loop
    computes ([region_metrics_total] gives their existence). *)
Theorem overlay_or_fallback (T : Thresholds) (w h : Z)
    (results : list Detection) (m : Metrics) :
  results ≠ [] →
  MIN_TOTAL_CHARS T <= total_chars results →
  region_metrics w h results = Ok m →
  ¬ (MEME_MIN_REGION_AREA_RATIO T <= max_region_area_ratio (m_acc m))%Q →
  ¬ (MEME_MIN_WIDTH_RATIO T <= max_region_width_ratio (m_acc m))%Q →
  ¬ (MEME_MIN_TOTAL_AREA_RATIO T <= total_area_ratio m)%Q →
  ¬ MEME_MIN_TOTAL_CHARS T <= total_chars results →
  (classify_text_type T w h results = Ok v_overlay ↔
     (total_area_ratio m <= MAX_OVERLAY_TOTAL_AREA_RATIO T)%Q
     ∧ (max_region_area_ratio (m_acc m)
        <= MAX_OVERLAY_REGION_AREA_RATIO T)%Q)
  ∧ (¬ ((total_area_ratio m <= MAX_OVERLAY_TOTAL_AREA_RATIO T)%Q
        ∧ (max_region_area_ratio (m_acc m)
           <= MAX_OVERLAY_REGION_AREA_RATIO T)%Q) →
     classify_text_type T w h results = Ok v_meme)
  ∧ classify_text_type T w h results ≠ Ok v_none.
Proof.
  intros Hne Hge Hm H1 H2 H3 H4.
  rewrite (classify_rules T w h results m Hne Hge Hm).
  assert (meme_test T (total_chars results) m = false) as Hmeme.
  { apply not_true_iff_false. rewrite meme_test_true_iff. tauto. }
  unfold rules. rewrite Hmeme.
  rewrite <- overlay_test_true_iff.
  destruct (overlay_test T m).
  - split; [tauto|]. split; [intros []; reflexivity|discriminate].
  - split; [|split; [reflexivity|discriminate]].
    split; [discriminate|discriminate].
Qed.

Lemma overlay_or_fallback_witness :
  classify_text_type DEFAULTS 100 100
    [mkDetection (box 0 0 10 10) "abc" 1] = Ok v_overlay
  ∧ classify_text_type DEFAULTS 100 100
      [mkDetection (box 0 0 30 30) "abc" 1] = Ok v_meme.
Proof.
  split.
  - eapply overlay_or_fallback;
      [discriminate | vm_compute; discriminate | reflexivity
      | vm_compute; tauto .. | ].
    split; vm_compute; discriminate.
  - eapply overlay_or_fallback;
      [discriminate | vm_compute; discriminate | reflexivity
      | vm_compute; tauto .. | ].
    intros [_ H]. vm_compute in H. tauto.
Defined.

End DecisionList.

(** ** Single regions, degenerate regions *)

Section Regions.

Import ThreeWay.
Local Open Scope Z_scope.

Lemma ratio_positive_area (a area : Z) (r : Q) :
  0 < area → (0 < r)%Q → (r <= inject_Z a / inject_Z area)%Q → 0 < a.
Proof.
  intros Harea Hr Hle.
  destruct (Z_lt_le_dec 0 a) as [Hpos|Hnpos]; [exact Hpos|exfalso].
  assert (inject_Z a / inject_Z area <= 0)%Q as Hdiv.
  { apply Qle_shift_div_r.
    - rewrite <- (Zlt_Qlt 0). exact Harea.
    - rewrite Qmult_0_l. change (inject_Z a <= inject_Z 0)%Q.
      rewrite <- Zle_Qle. exact Hnpos. }
  lra.
Qed.

(** C1, as the code has it. On an image with positive width and height,
    under the default thresholds, a single detection whose box covers at
    least [MEME_MIN_REGION_AREA_RATIO] of the image is "meme" when its
    text has at least [MIN_TOTAL_CHARS] characters, and "none" when it
    has fewer: the character floor is tested before any area. *)
Theorem meme_dominance_above_floor (w h : Z) (d : Detection) (a : Z) :
  0 < w → 0 < h →
  bbox_area d = Ok a →
  (MEME_MIN_REGION_AREA_RATIO DEFAULTS
   <= inject_Z a / inject_Z (w * h))%Q →
  (MIN_TOTAL_CHARS DEFAULTS <= Z.of_nat (String.length (text d)) →
     classify_text_type DEFAULTS w h [d] = Ok v_meme)
  ∧ (Z.of_nat (String.length (text d)) < MIN_TOTAL_CHARS DEFAULTS →
     classify_text_type DEFAULTS w h [d] = Ok v_none).
Proof.
  intros Hw Hh Ha Hratio.
  assert (total_chars [d] = Z.of_nat (String.length (text d))) as Hchars
    by reflexivity.
  split; intros Hlen.
  - assert (0 < w * h) as Harea by nia.
    assert (0 < a) as Hpos.
    { eapply ratio_positive_area; [exact Harea| |exact Hratio].
      reflexivity. }
    apply bbox_area_dims in Ha as (bw & bh & Hd & ->).
    eapply classify_meme_test; [discriminate|lia| |].
    + unfold region_metrics. simpl.
      rewrite (loop_body_region w _ acc0 d bw bh Hd Hpos)
        by (try apply inject_Z_nonzero; lia).
      simpl. rewrite py_div_ok by (apply inject_Z_nonzero; lia).
      reflexivity.
    + apply meme_test_true_iff. left. simpl.
      eapply Qle_trans; [exact Hratio|apply py_fmax_r].
  - apply classify_below_floor. lia.
Qed.

Lemma meme_dominance_above_floor_witness :
  classify_text_type DEFAULTS 100 100
    [mkDetection (box 0 0 50 20) "abc" 1] = Ok v_meme
  ∧ classify_text_type DEFAULTS 100 100
      [mkDetection (box 0 0 50 20) "ab" 1] = Ok v_none.
Proof.
  split.
  - apply (meme_dominance_above_floor 100 100 _ 1000);
      [lia | lia | reflexivity | vm_compute; discriminate
      | vm_compute; discriminate].
  - apply (meme_dominance_above_floor 100 100 _ 1000);
      [lia | lia | reflexivity | vm_compute; discriminate
      | reflexivity].
Defined.

(** C1, as stated, fails: a box that covers the whole image with a text
    of one character is "none", not "meme". *)
Lemma meme_dominance_one_char :
  bbox_area (mkDetection (box 0 0 100 100) "A" 1) = Ok 10000
  ∧ (MEME_MIN_REGION_AREA_RATIO DEFAULTS
     <= inject_Z 10000 / inject_Z (100 * 100))%Q
  ∧ total_chars [mkDetection (box 0 0 100 100) "A" 1] = 1
  ∧ classify_text_type DEFAULTS 100 100
      [mkDetection (box 0 0 100 100) "A" 1] = Ok v_none
  ∧ classify_text_type DEFAULTS 100 100
      [mkDetection (box 0 0 100 100) "A" 1] ≠ Ok v_meme.
Proof.
  split; [reflexivity|]. split; [vm_compute; discriminate|].
  split; [reflexivity|]. split; [reflexivity|discriminate].
Qed.

(** C5. A detection whose box has a non-positive area leaves the three
    accumulators as they were, and raises nothing, on any image; so the
    metrics of a list are those of the list without it, while its text
    length is counted in [total_chars]. *)
Theorem degenerate_region_excluded (w h : Z) (d : Detection) (a : Z) :
  bbox_area d = Ok a → a <= 0 →
  (∀ acc, loop_body w (inject_Z (w * h)) acc d = Ok acc)
  ∧ (∀ l1 l2,
       region_metrics w h (l1 ++ d :: l2) = region_metrics w h (l1 ++ l2))
  ∧ (∀ l1 l2,
       total_chars (l1 ++ d :: l2)
       = total_chars (l1 ++ l2) + Z.of_nat (String.length (text d))).
Proof.
  intros Ha Hle.
  assert (∀ A acc, loop_body w A acc d = Ok acc) as Hskip
    by (intros; eapply loop_body_skip; eauto).
  split; [intros; apply Hskip|]. split.
  - intros l1 l2. unfold region_metrics.
    rewrite !region_loop_app.
    destruct (region_loop w _ l1 acc0) as [acc1|e]; simpl; [|reflexivity].
    rewrite Hskip. reflexivity.
  - intros l1 l2. rewrite !total_chars_app, total_chars_cons. lia.
Qed.

(** Four corners on one horizontal line, on a 100 by 100 image. *)
Lemma degenerate_region_excluded_witness :
  region_metrics 100 100
    [mkDetection (box 0 0 10 10) "abc" 1;
     mkDetection [(0, 5); (10, 5); (20, 5); (30, 5)] "line" 1]
  = region_metrics 100 100 [mkDetection (box 0 0 10 10) "abc" 1]
  ∧ total_chars
      [mkDetection (box 0 0 10 10) "abc" 1;
       mkDetection [(0, 5); (10, 5); (20, 5); (30, 5)] "line" 1]
    = total_chars [mkDetection (box 0 0 10 10) "abc" 1] + 4.
Proof.
  pose proof (degenerate_region_excluded 100 100
    (mkDetection [(0, 5); (10, 5); (20, 5); (30, 5)] "line" 1) 0
    eq_refl (Z.le_refl 0)) as (_ & Hm & Hc).
  split.
  - exact (Hm [mkDetection (box 0 0 10 10) "abc" 1] []).
  - exact (Hc [mkDetection (box 0 0 10 10) "abc" 1] []).
Defined.

End Regions.

(** ** Unchecked inputs *)

Section Unchecked.

Import ThreeWay.
Local Open Scope Z_scope.

Lemma loop_body_zero_area (w : Z) (img_area : Q) (acc : Acc)
    (d : Detection) :
  (img_area == 0)%Q → bbox d ≠ [] →
  loop_body w img_area acc d = Ok acc
  ∨ loop_body w img_area acc d = Raise ZeroDivisionError.
Proof.
  intros HA Hne. destruct (bbox_dims_cons d Hne) as (bw & bh & Hd).
  unfold loop_body. rewrite Hd. simpl.
  destruct (bw * bh <=? 0); [left; reflexivity|right].
  rewrite (py_div_zero _ _ HA). reflexivity.
Qed.

Lemma region_loop_zero_area (w : Z) (img_area : Q)
    (results : list Detection) (acc : Acc) :
  (img_area == 0)%Q → Forall (λ d, bbox d ≠ []) results →
  region_loop w img_area results acc = Ok acc
  ∨ region_loop w img_area results acc = Raise ZeroDivisionError.
Proof.
  intros HA Hall. induction Hall as [|d rest Hd _ IH]; simpl.
  - left. reflexivity.
  - destruct (loop_body_zero_area w img_area acc d HA Hd) as [-> | ->];
      simpl; [exact IH|right; reflexivity].
Qed.

Lemma region_metrics_zero_area (w h : Z) (results : list Detection) :
  w = 0 ∨ h = 0 → Forall (λ d, bbox d ≠ []) results →
  region_metrics w h results = Raise ZeroDivisionError.
Proof.
  intros Hz Hall. unfold region_metrics.
  assert (inject_Z (w * h) == 0)%Q as HA by (apply inject_Z_zero; lia).
  destruct (region_loop_zero_area w _ results acc0 HA Hall) as [-> | ->];
    simpl; [|reflexivity].
  rewrite (py_div_zero _ _ HA). reflexivity.
Qed.

(** C6, as the code has it. The classifier checks neither its thresholds
    nor the image size. Under every threshold configuration, negative
    values included, it returns a verdict when the image has positive
    width and height and every detection has at least one corner. On an
    image with a zero side it returns "none" when the detection list is
    empty or has fewer than [MIN_TOTAL_CHARS] characters; past these two
    early returns it ends in the [ZeroDivisionError] of a division by the
    image area. *)
Theorem classify_unchecked (T : Thresholds) (w h : Z)
    (results : list Detection) :
  (0 < w → 0 < h → Forall (λ d, bbox d ≠ []) results →
     ∃ v, classify_text_type T w h results = Ok v)
  ∧ (w = 0 ∨ h = 0 →
     results = [] ∨ total_chars results < MIN_TOTAL_CHARS T →
     classify_text_type T w h results = Ok v_none)
  ∧ (w = 0 ∨ h = 0 → Forall (λ d, bbox d ≠ []) results →
     results ≠ [] → MIN_TOTAL_CHARS T <= total_chars results →
     classify_text_type T w h results = Raise ZeroDivisionError).
Proof.
  split; [apply classify_total|]. split.
  - intros _ [->|Hlt]; [apply classify_nil|].
    apply classify_below_floor, Hlt.
  - intros Hz Hall Hne Hge. unfold classify_text_type.
    destruct results as [|d rest]; [congruence|].
    apply Z.ltb_ge in Hge. rewrite Hge.
    rewrite (region_metrics_zero_area w h _ Hz Hall). reflexivity.
Qed.

Lemma classify_unchecked_witness :
  (∃ v, classify_text_type (mkThresholds (-3) (-1) (-1) (-1) (-1) (-1) (-25))
          100 100 [mkDetection (box 0 0 10 10) "abc" 1] = Ok v)
  ∧ classify_text_type DEFAULTS 0 100
      [mkDetection (box 0 0 10 10) "ab" 1] = Ok v_none
  ∧ classify_text_type DEFAULTS 0 100
      [mkDetection (box 0 0 10 10) "abc" 1] = Raise ZeroDivisionError.
Proof.
  split; [|split].
  - apply classify_unchecked; [lia|lia|].
    constructor; [discriminate|constructor].
  - apply classify_unchecked; [left; reflexivity|].
    right. reflexivity.
  - apply classify_unchecked; [left; reflexivity| |discriminate|].
    + constructor; [discriminate|constructor].
    + vm_compute. discriminate.
Defined.

(** C6, as stated, fails: with a zero-sized image, and with negative
    thresholds, the classifier returns a verdict and raises nothing. *)
Lemma invalid_input_gets_verdict :
  classify_text_type DEFAULTS 0 0 [] = Ok v_none
  ∧ classify_text_type DEFAULTS 0 100
      [mkDetection (box 0 0 10 10) "ab" 1] = Ok v_none
  ∧ classify_text_type (mkThresholds (-3) (-1) (-1) (-1) (-1) (-1) (-25))
      100 100 [mkDetection (box 0 0 10 10) "abc" 1] = Ok v_meme
  ∧ ¬ raises (classify_text_type DEFAULTS 0 0 [])
  ∧ ¬ raises
      (classify_text_type (mkThresholds (-3) (-1) (-1) (-1) (-1) (-1) (-25))
         100 100 [mkDetection (box 0 0 10 10) "abc" 1]).
Proof.
  repeat split; try reflexivity; intros [].
Qed.

End Unchecked.

(** ** Adding a detection *)

Section Monotone.

Import ThreeWay.
Local Open Scope Z_scope.

Lemma rules_monotone (T : Thresholds) (chars chars' : Z) (m m' : Metrics) :
  chars <= chars' →
  acc_le (m_acc m) (m_acc m') →
  (total_area_ratio m <= total_area_ratio m')%Q →
  rules T chars m = v_meme → rules T chars' m' = v_meme.
Proof.
  intros Hc (_ & Ha & Hw) Ht. unfold rules.
  destruct (meme_test T chars' m') eqn:Hmeme'; [reflexivity|].
  destruct (overlay_test T m') eqn:Hov'; [|reflexivity].
  apply overlay_test_true_iff in Hov' as [Ho1 Ho2].
  assert (overlay_test T m = true) as ->.
  { apply overlay_test_true_iff. split; eapply Qle_trans; eauto. }
  destruct (meme_test T chars m) eqn:Hmeme; [|discriminate].
  exfalso. apply not_true_iff_false in Hmeme'. apply Hmeme'.
  apply meme_test_true_iff. apply meme_test_true_iff in Hmeme.
  destruct Hmeme as [H|[H|[H|H]]].
  - left. eapply Qle_trans; eauto.
  - right. left. eapply Qle_trans; eauto.
  - right. right. left. eapply Qle_trans; eauto.
  - right. right. right. lia.
Qed.

Lemma Qdiv_le_mono (a b c : Q) : (0 < c)%Q → (a <= b)%Q → (a / c <= b / c)%Q.
Proof.
  intros Hc Hab. unfold Qdiv. apply Qmult_le_compat_r; [exact Hab|].
  apply Qinv_le_0_compat, Qlt_le_weak, Hc.
Qed.

Lemma classify_meme_append (T : Thresholds) (w h : Z)
    (results : list Detection) (d : Detection) :
  0 < w → 0 < h → bbox d ≠ [] →
  classify_text_type T w h results = Ok v_meme →
  classify_text_type T w h (results ++ [d]) = Ok v_meme.
Proof.
  intros Hw Hh Hd Hmeme.
  assert (¬ (inject_Z (w * h) == 0)%Q) as HA
    by (apply inject_Z_nonzero; nia).
  assert (0 < inject_Z (w * h))%Q as HApos
    by (rewrite <- (Zlt_Qlt 0); nia).
  unfold classify_text_type in Hmeme.
  destruct results as [|d0 rest]; [discriminate|].
  destruct (total_chars (d0 :: rest) <? MIN_TOTAL_CHARS T) eqn:Hfloor;
    [discriminate|].
  apply Z.ltb_ge in Hfloor.
  destruct (region_metrics w h (d0 :: rest)) as [m|e] eqn:Hm;
    [|discriminate].
  simpl in Hmeme. injection Hmeme as Hrules.
  unfold region_metrics in Hm.
  destruct (region_loop w _ (d0 :: rest) acc0) as [acc|e] eqn:Hloop;
    [|discriminate].
  simpl in Hm. rewrite (py_div_ok _ _ HA) in Hm. injection Hm as <-.
  destruct (loop_body_total w h acc d Hw Hh Hd) as (acc' & Hbody & Hle).
  pose (m' := mkMetrics acc' (total_text_area acc' / inject_Z (w * h))).
  rewrite (classify_rules T w h _ m').
  - f_equal. eapply rules_monotone; [| | |exact Hrules].
    + rewrite total_chars_app.
      pose proof (total_chars_nonneg [d]). lia.
    + exact Hle.
    + simpl. apply Qdiv_le_mono; [exact HApos|apply Hle].
  - destruct rest; discriminate.
  - rewrite total_chars_app. pose proof (total_chars_nonneg [d]). lia.
  - unfold region_metrics. rewrite region_loop_app, Hloop. simpl.
    rewrite Hbody. simpl. rewrite (py_div_ok _ _ HA). reflexivity.
Qed.

(** C10. On an image with positive width and height, under the default
    thresholds, a detection list classified "meme" is still classified
    "meme" after a detection with at least one corner is appended. *)
Theorem meme_stays_meme (w h : Z) (results : list Detection)
    (d : Detection) :
  0 < w → 0 < h → bbox d ≠ [] →
  classify_text_type DEFAULTS w h results = Ok v_meme →
  classify_text_type DEFAULTS w h (results ++ [d]) = Ok v_meme.
Proof. apply classify_meme_append. Qed.

Lemma meme_stays_meme_witness :
  classify_text_type DEFAULTS 100 100
    [mkDetection (box 0 0 30 30) "abc" 1] = Ok v_meme
  ∧ classify_text_type DEFAULTS 100 100
      ([mkDetection (box 0 0 30 30) "abc" 1]
       ++ [mkDetection (box 50 50 52 51) "" 1]) = Ok v_meme.
Proof.
  split; [reflexivity|].
  apply meme_stays_meme; [lia|lia|discriminate|reflexivity].
Defined.

End Monotone.

(** ** The two-way classifier *)

Section TwoWayClassifier.

Import TwoWay.
Local Open Scope Z_scope.

Lemma total_chars_texts (results results' : list Detection) :
  text <$> results' = text <$> results →
  total_chars results' = total_chars results.
Proof.
  intros Htexts. rewrite !total_chars_sum_list.
  change (λ d, String.length (text d)) with (String.length ∘ text).
  rewrite !list_fmap_compose, Htexts. reflexivity.
Qed.

(** C9. The two-way classifier answers "text present" exactly when the
    lengths of the detected texts sum to at least [MIN_TOTAL_CHARS], and
    two detection lists with the same texts get the same answer, whatever
    their boxes and confidences. *)
Theorem has_text_iff_enough_chars (MIN_TOTAL_CHARS : Z)
    (results : list Detection) :
  (has_text_easyocr MIN_TOTAL_CHARS results = true ↔
     MIN_TOTAL_CHARS
     <= Z.of_nat (sum_list ((λ d, String.length (text d)) <$> results)))
  ∧ (∀ results', text <$> results' = text <$> results →
       has_text_easyocr MIN_TOTAL_CHARS results'
       = has_text_easyocr MIN_TOTAL_CHARS results).
Proof.
  unfold has_text_easyocr. split.
  - rewrite Z.leb_le, total_chars_sum_list. reflexivity.
  - intros results' Htexts. rewrite (total_chars_texts _ _ Htexts).
    reflexivity.
Qed.

Lemma has_text_iff_enough_chars_witness :
  has_text_easyocr DEFAULT_MIN_TOTAL_CHARS
    [mkDetection (box 0 0 100 100) "ab" 1; mkDetection [] "c" 0]
  = has_text_easyocr DEFAULT_MIN_TOTAL_CHARS
      [mkDetection (box 0 0 1 1) "ab" 0; mkDetection (box 5 5 9 9) "c" 1]
  ∧ has_text_easyocr DEFAULT_MIN_TOTAL_CHARS
      [mkDetection (box 0 0 1 1) "ab" 0; mkDetection (box 5 5 9 9) "c" 1]
    = true.
Proof.
  split.
  - apply has_text_iff_enough_chars. reflexivity.
  - apply has_text_iff_enough_chars. vm_compute. discriminate.
Defined.

End TwoWayClassifier.

(** ** Destination directories *)

Section Directories.

Implicit Types (dir : gmap string string) (img_path : Path).

Lemma copy_if_absent_subseteq img_path dir :
  dir ⊆ copy_if_absent img_path dir.
Proof.
  unfold copy_if_absent.
  destruct (dir !! name img_path) eqn:E; [done|].
  by apply insert_subseteq.
Qed.

Lemma copy_if_absent_lookup img_path dir :
  is_Some (copy_if_absent img_path dir !! name img_path).
Proof.
  unfold copy_if_absent.
  destruct (dir !! name img_path) eqn:E.
  - rewrite E. eauto.
  - rewrite lookup_insert_eq. eauto.
Qed.

Lemma copy_if_absent_present img_path dir dir' :
  copy_if_absent img_path dir ⊆ dir' →
  copy_if_absent img_path dir' = dir'.
Proof.
  intros Hsub.
  destruct (copy_if_absent_lookup img_path dir) as [c Hc].
  apply (lookup_weaken _ _ _ _ Hc) in Hsub.
  unfold copy_if_absent. rewrite Hsub. reflexivity.
Qed.

End Directories.

(** ** The three-way driver *)

Section ThreeWayDriver.

Import ThreeWay.

Variable T : Thresholds.

Lemma process_dirs (st : State) (img_path : Path) :
  DST_DIR st ⊆ DST_DIR (process T st img_path).1
  ∧ REJECTED_DIR st ⊆ REJECTED_DIR (process T st img_path).1.
Proof.
  unfold process.
  destruct (image img_path) as [| | |w h results]; simpl;
    [ | split; [done|apply copy_if_absent_subseteq] | done |].
  - destruct (REJECTED_DIR st !! name img_path); simpl; [|done].
    split; [done|apply copy_if_absent_subseteq].
  - destruct (classify_text_type T w h results) as [[| |]|e]; simpl;
      split; try done; apply copy_if_absent_subseteq.
Qed.

Lemma for_each_dirs (all_paths : list Path) (st : State) :
  DST_DIR st ⊆ DST_DIR (for_each T all_paths st).1
  ∧ REJECTED_DIR st ⊆ REJECTED_DIR (for_each T all_paths st).1.
Proof.
  revert st. induction all_paths as [|img_path rest IH]; intros st; simpl.
  - done.
  - pose proof (process_dirs st img_path) as [Hd Hr].
    destruct (process T st img_path) as [st' [e|]]; simpl in *; [done|].
    destruct (IH st') as [Hd' Hr']. split; etrans; eauto.
Qed.

(** A run that starts from directories holding what an earlier run over
    the same paths left, and from the same counters, copies nothing and
    counts as the earlier run did. *)
Lemma for_each_rerun (all_paths : list Path) (st st' : State) :
  DST_DIR (for_each T all_paths st).1 ⊆ DST_DIR st' →
  REJECTED_DIR st' = REJECTED_DIR (for_each T all_paths st).1 →
  num_kept st' = num_kept st →
  num_rejected st' = num_rejected st →
  for_each T all_paths st'
  = (mkState (DST_DIR st') (REJECTED_DIR st')
       (num_kept (for_each T all_paths st).1)
       (num_rejected (for_each T all_paths st).1),
     (for_each T all_paths st).2).
Proof.
  revert st st'.
  induction all_paths as [|img_path rest IH]; intros st st' Hd Hr Hk Hn.
  - simpl. destruct st'; simpl in *; congruence.
  - simpl in *. unfold process in *.
    assert (∀ st0,
      DST_DIR (for_each T rest (keep img_path st0)).1 ⊆ DST_DIR st' →
      copy_if_absent img_path (DST_DIR st') = DST_DIR st') as Hkeep.
    { intros st0 H. apply (copy_if_absent_present _ (DST_DIR st0)).
      etrans; [|exact H].
      apply (for_each_dirs rest (keep img_path st0)). }
    assert (∀ st0,
      REJECTED_DIR (for_each T rest (reject img_path st0)).1
        ⊆ REJECTED_DIR st' →
      copy_if_absent img_path (REJECTED_DIR st') = REJECTED_DIR st')
      as Hreject.
    { intros st0 H. apply (copy_if_absent_present _ (REJECTED_DIR st0)).
      etrans; [|exact H].
      apply (for_each_dirs rest (reject img_path st0)). }
    destruct (image img_path) as [| | |w h results].
    + destruct (REJECTED_DIR st !! name img_path) as [c|] eqn:Hc.
      * assert (REJECTED_DIR st' !! name img_path = Some c) as ->.
        { rewrite Hr. eapply lookup_weaken; [exact Hc|].
          etrans; [apply copy_if_absent_subseteq|].
          apply (for_each_dirs rest (reject img_path st)). }
        rewrite (IH (reject img_path st) (reject img_path st')); simpl;
          rewrite ?(Hreject st (reflexive_eq _ _ (eq_sym Hr)));
          try done; congruence.
      * simpl in *. rewrite Hr, Hc. destruct st'; simpl in *; congruence.
    + rewrite (IH (reject img_path st) (reject img_path st')); simpl;
        rewrite ?(Hreject st (reflexive_eq _ _ (eq_sym Hr)));
        try done; congruence.
    + simpl. destruct st'; simpl in *; congruence.
    + destruct (classify_text_type T w h results) as [[| |]|e].
      * rewrite (IH (keep img_path st) (keep img_path st')); simpl;
          rewrite ?(Hkeep st Hd); try done; congruence.
      * rewrite (IH (keep img_path st) (keep img_path st')); simpl;
          rewrite ?(Hkeep st Hd); try done; congruence.
      * rewrite (IH (reject img_path st) (reject img_path st')); simpl;
          rewrite ?(Hreject st (reflexive_eq _ _ (eq_sym Hr)));
          try done; congruence.
      * simpl. destruct st'; simpl in *; congruence.
Qed.

Lemma main_rerun (src : list Path) (dst rejected : gmap string string) :
  main T src (DST_DIR (main T src dst rejected).1)
             (REJECTED_DIR (main T src dst rejected).1)
  = main T src dst rejected.
Proof.
  unfold main.
  set (all_paths := List.filter _ src).
  rewrite (for_each_rerun all_paths (mkState dst rejected 0 0)); try done.
  destruct (for_each T all_paths (mkState dst rejected 0 0)) as [[] ?].
  reflexivity.
Qed.

End ThreeWayDriver.

(** ** The two-way driver *)

Section TwoWayDriver.

Import TwoWay.

Variable MIN_TOTAL_CHARS : Z.

Lemma process_dir (st : State) (img_path : Path) :
  DST_DIR st ⊆ DST_DIR (process MIN_TOTAL_CHARS st img_path).1.
Proof.
  unfold process.
  destruct (image img_path) as [| | |w h results]; simpl; try done.
  destruct (has_text_easyocr MIN_TOTAL_CHARS results); simpl; [done|].
  apply copy_if_absent_subseteq.
Qed.

Lemma for_each_dir (all_paths : list Path) (st : State) :
  DST_DIR st ⊆ DST_DIR (for_each MIN_TOTAL_CHARS all_paths st).1.
Proof.
  revert st. induction all_paths as [|img_path rest IH]; intros st; simpl.
  - done.
  - pose proof (process_dir st img_path) as Hd.
    destruct (process MIN_TOTAL_CHARS st img_path) as [st' [e|]];
      simpl in *; [done|].
    etrans; eauto.
Qed.

Lemma for_each_rerun2 (all_paths : list Path) (st st' : State) :
  DST_DIR (for_each MIN_TOTAL_CHARS all_paths st).1 ⊆ DST_DIR st' →
  num_kept st' = num_kept st →
  num_rejected st' = num_rejected st →
  for_each MIN_TOTAL_CHARS all_paths st'
  = (mkState (DST_DIR st')
       (num_kept (for_each MIN_TOTAL_CHARS all_paths st).1)
       (num_rejected (for_each MIN_TOTAL_CHARS all_paths st).1),
     (for_each MIN_TOTAL_CHARS all_paths st).2).
Proof.
  revert st st'.
  induction all_paths as [|img_path rest IH]; intros st st' Hd Hk Hn.
  - simpl. destruct st'; simpl in *; congruence.
  - simpl in *. unfold process in *.
    destruct (image img_path) as [| | |w h results].
    + rewrite (IH (reject st) (reject st')); simpl; try done; congruence.
    + rewrite (IH (reject st) (reject st')); simpl; try done; congruence.
    + simpl. destruct st'; simpl in *; congruence.
    + destruct (has_text_easyocr MIN_TOTAL_CHARS results).
      * rewrite (IH (reject st) (reject st')); simpl; try done; congruence.
      * assert (copy_if_absent img_path (DST_DIR st') = DST_DIR st')
          as Hkeep.
        { apply (copy_if_absent_present _ (DST_DIR st)).
          etrans; [|exact Hd]. apply (for_each_dir rest (keep img_path st)). }
        rewrite (IH (keep img_path st) (keep img_path st')); simpl;
          rewrite ?Hkeep; try done; congruence.
Qed.

Lemma main_rerun2 (src : list Path) (dst : gmap string string) :
  main MIN_TOTAL_CHARS src (DST_DIR (main MIN_TOTAL_CHARS src dst).1)
  = main MIN_TOTAL_CHARS src dst.
Proof.
  unfold main.
  set (all_paths := List.filter _ src).
  rewrite (for_each_rerun2 all_paths (mkState dst 0 0)); try done.
  destruct (for_each MIN_TOTAL_CHARS all_paths (mkState dst 0 0))
    as [[] ?].
  reflexivity.
Qed.

End TwoWayDriver.

(** ** Triage *)

Section Triage.




(** C8. A second run of either driver over the same source tree, on the
    destination directories the first run left, ends as the first run
    ended: the same counters and the same directories, so no file is
    added or rewritten. What a run finds in a destination directory it
    leaves there, under the same name with the same contents. *)
Theorem rerun_changes_nothing (T : ThreeWay.Thresholds)
    (MIN_TOTAL_CHARS : Z) (src : list Path)
    (dst rejected : gmap string string) :
  (ThreeWay.main T src
     (ThreeWay.DST_DIR (ThreeWay.main T src dst rejected).1)
     (ThreeWay.REJECTED_DIR (ThreeWay.main T src dst rejected).1)
   = ThreeWay.main T src dst rejected
   ∧ dst ⊆ ThreeWay.DST_DIR (ThreeWay.main T src dst rejected).1
   ∧ rejected ⊆ ThreeWay.REJECTED_DIR (ThreeWay.main T src dst rejected).1)
  ∧ (TwoWay.main MIN_TOTAL_CHARS src
       (TwoWay.DST_DIR (TwoWay.main MIN_TOTAL_CHARS src dst).1)
     = TwoWay.main MIN_TOTAL_CHARS src dst
     ∧ dst ⊆ TwoWay.DST_DIR (TwoWay.main MIN_TOTAL_CHARS src dst).1).
Proof.
  split; [split; [apply main_rerun|]|split; [apply main_rerun2|]].
  - unfold ThreeWay.main.
    apply (for_each_dirs T _ (ThreeWay.mkState dst rejected 0 0)).
  - unfold TwoWay.main.
    apply (for_each_dir MIN_TOTAL_CHARS _ (TwoWay.mkState dst 0 0)).
Qed.

End Triage.

(** ** Worked cases *)

Section Cases.

Import ThreeWay.
Local Open Scope Z_scope.

(** Three small regions, 5% of the image together and 2% at most each. *)
Example overlay_acceptance :
  classify_text_type DEFAULTS 100 100
    [mkDetection (box 0 0 20 10) "ab" 1;
     mkDetection (box 50 50 70 60) "cd" 1;
     mkDetection (box 80 80 90 90) "e" 1] = Ok v_overlay.
Proof. reflexivity. Qed.

(** Three regions of 4% each: 12% together, above the overlay ceiling and
    below every meme threshold. *)
Example fallback_conservatism :
  classify_text_type DEFAULTS 100 100
    [mkDetection (box 0 0 20 20) "ab" 1;
     mkDetection (box 30 30 50 50) "cd" 1;
     mkDetection (box 60 60 80 80) "e" 1] = Ok v_meme.
Proof. reflexivity. Qed.

(** A square turned by 45 degrees is measured by the box around it. *)
Example rotated_region :
  bbox_area (mkDetection [(10, 0); (20, 10); (10, 20); (0, 10)] "abc" 1)
  = Ok 400.
Proof. reflexivity. Qed.

Example empty_region_raises :
  classify_text_type DEFAULTS 100 100 [mkDetection [] "abc" 1]
  = Raise ValueError.
Proof. reflexivity. Qed.

Example suffix_case : is_image (mkPath "a.PNG" ".PNG" true "" open_fails) = true.
Proof. reflexivity. Qed.

(** The decoding at the top of the classifier is outside the [try] of
    [main]: its exception leaves the loop. *)
Example decode_failure_leaves_loop :
  main DEFAULTS
    [mkPath "a.png" ".png" true "xx" decode_fails;
     mkPath "b.png" ".png" true "yy" (pixels 100 100 [])] ∅ ∅
  = (mkState ∅ ∅ 0 0, Some OSError).
Proof. vm_compute. reflexivity. Qed.

(** So is the copy of the handler: on a file whose bytes cannot be read it
    raises, and the file is not counted; it is counted when a file of its
    name is in [REJECTED_DIR] already. *)
Example unreadable_file_leaves_loop :
  main DEFAULTS
    [mkPath "a.png" ".png" true "" unreadable;
     mkPath "b.png" ".png" true "yy" (pixels 100 100 [])] ∅ ∅
  = (mkState ∅ ∅ 0 0, Some OSError)
  ∧ main DEFAULTS
      [mkPath "a.png" ".png" true "" unreadable;
       mkPath "b.png" ".png" true "yy" (pixels 100 100 [])]
      ∅ {["a.png" := "old"]}
    = (mkState {["b.png" := "yy"]} {["a.png" := "old"]} 1 1, None).
Proof. split; vm_compute; reflexivity. Qed.

End Cases.

(** ** What the region loop computes *)

Section Aggregates.

Import ThreeWay.
Local Open Scope Z_scope.

Lemma bbox_dims_raise (d : Detection) (e : PyError) :
  bbox_dims d = Raise e → e = ValueError.
Proof.
  unfold bbox_dims. destruct (bbox d) as [|[x y] rest]; simpl.
  - intros [= <-]. reflexivity.
  - discriminate.
Qed.

Lemma loop_body_inv (w : Z) (img_area : Q) (acc acc' : Acc) (d : Detection) :
  loop_body w img_area acc d = Ok acc' →
  ∃ bw bh, bbox_dims d = Ok (bw, bh)
    ∧ ((bw * bh <= 0 ∧ acc' = acc)
       ∨ (0 < bw * bh ∧ ¬ (img_area == 0)%Q ∧ w ≠ 0
          ∧ acc' = {| total_text_area :=
                        (total_text_area acc + inject_Z (bw * bh))%Q;
                      max_region_area_ratio :=
                        py_fmax (max_region_area_ratio acc)
                                (inject_Z (bw * bh) / img_area)%Q;
                      max_region_width_ratio :=
                        py_fmax (max_region_width_ratio acc)
                                (inject_Z bw / inject_Z w)%Q |})).
Proof.
  unfold loop_body. destruct (bbox_dims d) as [[bw bh]|e]; simpl; [|discriminate].
  intros H. exists bw, bh. split; [reflexivity|].
  destruct (bw * bh <=? 0) eqn:Harea.
  - left. apply Z.leb_le in Harea. split; [exact Harea|congruence].
  - right. apply Z.leb_gt in Harea.
    unfold py_div in H.
    destruct (Qeq_bool img_area 0) eqn:HA; [discriminate|].
    simpl in H.
    destruct (Qeq_bool (inject_Z w) 0) eqn:Hw; [discriminate|].
    simpl in H. injection H as <-.
    split; [exact Harea|]. split; [|split; [|reflexivity]].
    + intros E. apply Qeq_bool_iff in E. congruence.
    + intros ->. discriminate.
Qed.

Lemma region_area_dims (d : Detection) (bw bh : Z) :
  bbox_dims d = Ok (bw, bh) → region_area d = Z.max 0 (bw * bh).
Proof. intros Hd. unfold region_area, bbox_area. rewrite Hd. reflexivity. Qed.

Lemma region_loop_total_area (w : Z) (img_area : Q)
    (results : list Detection) (acc acc' : Acc) :
  region_loop w img_area results acc = Ok acc' →
  (total_text_area acc'
   == total_text_area acc + inject_Z (total_region_area results))%Q.
Proof.
  revert acc. induction results as [|d rest IH]; intros acc; simpl.
  - intros [= <-]. change (inject_Z 0) with 0%Q. lra.
  - destruct (loop_body w img_area acc d) as [acc1|e] eqn:Hbody; [|discriminate].
    simpl. intros Hrest. rewrite (IH _ Hrest), inject_Z_plus.
    apply loop_body_inv in Hbody
      as (bw & bh & Hd & [[Hle ->]|(Hpos & _ & _ & ->)]);
      rewrite (region_area_dims d bw bh Hd); simpl.
    + rewrite Z.max_l by lia. change (inject_Z 0) with 0%Q. lra.
    + rewrite Z.max_r by lia. lra.
Qed.

(** X1. When the metrics are computed, [total_text_area] is the sum of the
    box areas of the detections whose box has a positive area, and
    [total_area_ratio] is that sum divided by the area of the image. *)
Theorem total_text_area_is_sum (w h : Z) (results : list Detection)
    (m : Metrics) :
  region_metrics w h results = Ok m →
  (total_text_area (m_acc m) == inject_Z (total_region_area results))%Q
  ∧ (total_area_ratio m
     == inject_Z (total_region_area results) / inject_Z (w * h))%Q.
Proof.
  unfold region_metrics.
  destruct (region_loop w _ results acc0) as [acc|e] eqn:Hloop; [|discriminate].
  simpl. unfold py_div.
  destruct (Qeq_bool (inject_Z (w * h)) 0); [discriminate|].
  intros [= <-]. simpl.
  apply region_loop_total_area in Hloop. simpl in Hloop.
  assert (total_text_area acc == inject_Z (total_region_area results))%Q
    as Htotal by (rewrite Hloop; lra).
  split; [exact Htotal|]. rewrite Htotal. reflexivity.
Qed.

Lemma total_text_area_is_sum_witness :
  ∃ m, region_metrics 100 100
         [mkDetection (box 0 0 20 10) "ab" 1;
          mkDetection [(0, 5); (30, 5)] "line" 1;
          mkDetection (box 50 50 60 60) "c" 1] = Ok m
    ∧ (total_text_area (m_acc m) == 300)%Q
    ∧ (total_area_ratio m == 3 # 100)%Q.
Proof.
  eexists. split; [reflexivity|].
  destruct (total_text_area_is_sum 100 100
    [mkDetection (box 0 0 20 10) "ab" 1;
     mkDetection [(0, 5); (30, 5)] "line" 1;
     mkDetection (box 50 50 60 60) "c" 1] _ eq_refl) as [Ht Hr].
  split.
  - rewrite Ht. reflexivity.
  - rewrite Hr. reflexivity.
Defined.

Lemma py_fmax_cases (a b : Q) : py_fmax a b = a ∨ py_fmax a b = b.
Proof. unfold py_fmax. destruct (Qle_bool b a); auto. Qed.

(** Each maximum bounds the ratio of every region counted so far, and is
    the value it started from or the ratio of one of these regions. *)
Lemma region_loop_maxima (w : Z) (img_area : Q) (results : list Detection)
    (acc acc' : Acc) :
  region_loop w img_area results acc = Ok acc' →
  ((max_region_area_ratio acc <= max_region_area_ratio acc')%Q
   ∧ (max_region_width_ratio acc <= max_region_width_ratio acc')%Q)
  ∧ (∀ d bw bh, d ∈ results → bbox_dims d = Ok (bw, bh) → 0 < bw * bh →
       (inject_Z (bw * bh) / img_area <= max_region_area_ratio acc')%Q
       ∧ (inject_Z bw / inject_Z w <= max_region_width_ratio acc')%Q)
  ∧ (max_region_area_ratio acc' = max_region_area_ratio acc
     ∨ ∃ d bw bh, d ∈ results ∧ bbox_dims d = Ok (bw, bh) ∧ 0 < bw * bh
         ∧ max_region_area_ratio acc' = (inject_Z (bw * bh) / img_area)%Q)
  ∧ (max_region_width_ratio acc' = max_region_width_ratio acc
     ∨ ∃ d bw bh, d ∈ results ∧ bbox_dims d = Ok (bw, bh) ∧ 0 < bw * bh
         ∧ max_region_width_ratio acc' = (inject_Z bw / inject_Z w)%Q).
Proof.
  revert acc. induction results as [|d0 rest IH]; intros acc; simpl.
  - intros [= <-]. split; [split; apply Qle_refl|].
    split; [intros d bw bh Hin; inversion Hin|]. split; left; reflexivity.
  - destruct (loop_body w img_area acc d0) as [acc1|e] eqn:Hbody; [|discriminate].
    simpl. intros Hrest.
    destruct (IH _ Hrest) as ([Hma Hmw] & Hall & Hatt_a & Hatt_w).
    apply loop_body_inv in Hbody
      as (bw0 & bh0 & Hd0 & [[Hle ->]|(Hpos & _ & _ & ->)]).
    + split; [split; assumption|]. split; [|split].
      * intros d bw bh Hin Hd Hp. apply elem_of_cons in Hin as [->|Hin].
        -- rewrite Hd0 in Hd. injection Hd as <- <-. lia.
        -- eapply Hall; eauto.
      * destruct Hatt_a as [?|(d & bw & bh & Hin & ?)]; [left; assumption|].
        right. exists d, bw, bh. split; [right; exact Hin|assumption].
      * destruct Hatt_w as [?|(d & bw & bh & Hin & ?)]; [left; assumption|].
        right. exists d, bw, bh. split; [right; exact Hin|assumption].
    + simpl in *. split; [split|split; [|split]].
      * eapply Qle_trans; [apply py_fmax_l|exact Hma].
      * eapply Qle_trans; [apply py_fmax_l|exact Hmw].
      * intros d bw bh Hin Hd Hp. apply elem_of_cons in Hin as [->|Hin].
        -- rewrite Hd0 in Hd. injection Hd as <- <-. split.
           ++ eapply Qle_trans; [apply py_fmax_r|exact Hma].
           ++ eapply Qle_trans; [apply py_fmax_r|exact Hmw].
        -- eapply Hall; eauto.
      * destruct Hatt_a as [->|(d & bw & bh & Hin & ?)].
        -- destruct (py_fmax_cases (max_region_area_ratio acc)
             (inject_Z (bw0 * bh0) / img_area)) as [-> | ->];
             [left; reflexivity|].
           right. exists d0, bw0, bh0. split; [left|]. auto.
        -- right. exists d, bw, bh. split; [right; exact Hin|assumption].
      * destruct Hatt_w as [->|(d & bw & bh & Hin & ?)].
        -- destruct (py_fmax_cases (max_region_width_ratio acc)
             (inject_Z bw0 / inject_Z w)) as [-> | ->];
             [left; reflexivity|].
           right. exists d0, bw0, bh0. split; [left|]. auto.
        -- right. exists d, bw, bh. split; [right; exact Hin|assumption].
Qed.

Lemma region_metrics_inv (w h : Z) (results : list Detection) (m : Metrics) :
  region_metrics w h results = Ok m →
  region_loop w (inject_Z (w * h)) results acc0 = Ok (m_acc m)
  ∧ ¬ (inject_Z (w * h) == 0)%Q
  ∧ total_area_ratio m = (total_text_area (m_acc m) / inject_Z (w * h))%Q.
Proof.
  unfold region_metrics.
  destruct (region_loop w _ results acc0) as [acc|e]; [|discriminate].
  simpl. unfold py_div.
  destruct (Qeq_bool (inject_Z (w * h)) 0) eqn:HA; [discriminate|].
  intros [= <-]. simpl. split; [reflexivity|]. split; [|reflexivity].
  intros E. apply Qeq_bool_iff in E. congruence.
Qed.

(** X2. When the metrics are computed, [max_region_area_ratio] and
    [max_region_width_ratio] are maxima over the detections whose box has
    a positive area: each bounds the ratio of every such detection, and is
    0 or the ratio of one of them. *)
Theorem max_ratios_are_maxima (w h : Z) (results : list Detection)
    (m : Metrics) :
  region_metrics w h results = Ok m →
  (∀ d bw bh, d ∈ results → bbox_dims d = Ok (bw, bh) → 0 < bw * bh →
     (inject_Z (bw * bh) / inject_Z (w * h)
      <= max_region_area_ratio (m_acc m))%Q
     ∧ (inject_Z bw / inject_Z w <= max_region_width_ratio (m_acc m))%Q)
  ∧ (max_region_area_ratio (m_acc m) = 0%Q
     ∨ ∃ d bw bh, d ∈ results ∧ bbox_dims d = Ok (bw, bh) ∧ 0 < bw * bh
         ∧ max_region_area_ratio (m_acc m)
           = (inject_Z (bw * bh) / inject_Z (w * h))%Q)
  ∧ (max_region_width_ratio (m_acc m) = 0%Q
     ∨ ∃ d bw bh, d ∈ results ∧ bbox_dims d = Ok (bw, bh) ∧ 0 < bw * bh
         ∧ max_region_width_ratio (m_acc m) = (inject_Z bw / inject_Z w)%Q).
Proof.
  intros Hm. apply region_metrics_inv in Hm as (Hloop & _ & _).
  apply region_loop_maxima in Hloop as (_ & Hall & Ha & Hw).
  split; [exact Hall|]. split; assumption.
Qed.

Lemma max_ratios_are_maxima_witness :
  ∃ m, region_metrics 100 100
         [mkDetection (box 0 0 20 10) "ab" 1;
          mkDetection (box 50 50 60 90) "c" 1] = Ok m
    ∧ (inject_Z (20 * 10) / inject_Z (100 * 100)
       <= max_region_area_ratio (m_acc m))%Q
    ∧ (inject_Z 20 / inject_Z 100 <= max_region_width_ratio (m_acc m))%Q.
Proof.
  eexists. split; [reflexivity|].
  apply (proj1 (max_ratios_are_maxima 100 100
    [mkDetection (box 0 0 20 10) "ab" 1;
     mkDetection (box 50 50 60 90) "c" 1] _ eq_refl)
    (mkDetection (box 0 0 20 10) "ab" 1) 20 10).
  - left.
  - reflexivity.
  - lia.
Defined.

Lemma region_area_nonneg (d : Detection) : 0 <= region_area d.
Proof. unfold region_area. destruct (bbox_area d); lia. Qed.

Lemma total_region_area_nonneg (results : list Detection) :
  0 <= total_region_area results.
Proof.
  induction results as [|d rest IH]; simpl; [lia|].
  pose proof (region_area_nonneg d). lia.
Qed.

Lemma region_area_le_total (results : list Detection) (d : Detection) :
  d ∈ results → region_area d <= total_region_area results.
Proof.
  induction results as [|d0 rest IH]; intros Hin; [inversion Hin|].
  simpl. pose proof (region_area_nonneg d0).
  pose proof (total_region_area_nonneg rest).
  apply elem_of_cons in Hin as [->|Hin]; [lia|].
  specialize (IH Hin). lia.
Qed.

Lemma max_area_le_total (w h : Z) (results : list Detection) (m : Metrics) :
  0 < w → 0 < h → region_metrics w h results = Ok m →
  (0 <= max_region_area_ratio (m_acc m))%Q
  ∧ (max_region_area_ratio (m_acc m) <= total_area_ratio m)%Q
  ∧ (0 <= max_region_width_ratio (m_acc m))%Q.
Proof.
  intros Hw Hh Hm.
  assert (0 < inject_Z (w * h))%Q as HA by (rewrite <- (Zlt_Qlt 0); nia).
  pose proof (region_metrics_inv _ _ _ _ Hm) as (Hloop & _ & Hratio).
  pose proof (region_loop_total_area _ _ _ _ _ Hloop) as Htotal.
  pose proof (region_loop_maxima _ _ _ _ _ Hloop) as ([H0a H0w] & _ & Ha & _).
  simpl in Htotal, H0a, H0w.
  split; [exact H0a|]. split; [|exact H0w].
  rewrite Hratio, Htotal, Qplus_0_l.
  destruct Ha as [-> | (d & bw & bh & Hin & Hd & Hpos & ->)].
  - simpl. apply Qle_shift_div_l; [exact HA|].
    rewrite Qmult_0_l. change 0%Q with (inject_Z 0). rewrite <- Zle_Qle.
    apply total_region_area_nonneg.
  - apply Qdiv_le_mono; [exact HA|]. rewrite <- Zle_Qle.
    pose proof (region_area_le_total _ _ Hin) as Hle.
    rewrite (region_area_dims d bw bh Hd) in Hle. lia.
Qed.

(** X3. On an image with positive width and height, the largest region
    ratio is never negative and never above the total area ratio, and the
    largest width ratio is never negative. *)
Theorem largest_region_within_total (w h : Z) (results : list Detection)
    (m : Metrics) :
  0 < w → 0 < h → region_metrics w h results = Ok m →
  (0 <= max_region_area_ratio (m_acc m))%Q
  ∧ (max_region_area_ratio (m_acc m) <= total_area_ratio m)%Q
  ∧ (0 <= max_region_width_ratio (m_acc m))%Q.
Proof. apply max_area_le_total. Qed.

Lemma largest_region_within_total_witness :
  ∃ m, region_metrics 100 100
         [mkDetection (box 0 0 20 10) "ab" 1;
          mkDetection (box 50 50 60 90) "c" 1] = Ok m
    ∧ (max_region_area_ratio (m_acc m) <= total_area_ratio m)%Q.
Proof.
  eexists. split; [reflexivity|].
  apply (largest_region_within_total 100 100
    [mkDetection (box 0 0 20 10) "ab" 1;
     mkDetection (box 50 50 60 90) "c" 1]); [lia|lia|reflexivity].
Defined.

End Aggregates.

(** ** What the verdict does not depend on *)

Section Independence.

Import ThreeWay.
Local Open Scope Z_scope.

Lemma loop_body_dims (w : Z) (img_area : Q) (acc : Acc) (d d' : Detection) :
  bbox_dims d = bbox_dims d' →
  loop_body w img_area acc d = loop_body w img_area acc d'.
Proof. intros E. unfold loop_body. rewrite E. reflexivity. Qed.

Lemma region_loop_dims (w : Z) (img_area : Q) (l l' : list Detection)
    (acc : Acc) :
  Forall2 (λ d d', bbox_dims d = bbox_dims d') l l' →
  region_loop w img_area l acc = region_loop w img_area l' acc.
Proof.
  intros Hall. revert acc.
  induction Hall as [|d d' l l' Hd _ IH]; intros acc; simpl; [reflexivity|].
  rewrite (loop_body_dims _ _ _ _ _ Hd).
  destruct (loop_body w img_area acc d'); simpl; [apply IH|reflexivity].
Qed.

Lemma total_chars_lengths (l l' : list Detection) :
  Forall2 (λ d d', String.length (text d) = String.length (text d')) l l' →
  total_chars l = total_chars l'.
Proof.
  induction 1 as [|d d' l l' Hd _ IH]; [reflexivity|].
  rewrite !total_chars_cons, Hd, IH. reflexivity.
Qed.

Lemma classify_dims_ext (T : Thresholds) (w h : Z) (l l' : list Detection) :
  Forall2 (λ d d', bbox_dims d = bbox_dims d'
                   ∧ String.length (text d) = String.length (text d')) l l' →
  classify_text_type T w h l = classify_text_type T w h l'.
Proof.
  intros Hall.
  assert (total_chars l = total_chars l') as Hchars.
  { apply total_chars_lengths. eapply Forall2_impl; [exact Hall|].
    intros ? ? [_ ?]. assumption. }
  assert (region_metrics w h l = region_metrics w h l') as Hm.
  { unfold region_metrics. rewrite (region_loop_dims _ _ l l'); [reflexivity|].
    eapply Forall2_impl; [exact Hall|]. intros ? ? [? _]. assumption. }
  unfold classify_text_type. rewrite Hchars, Hm.
  destruct Hall; reflexivity.
Qed.

(** X4. The three-way classifier reads of each detection only the width
    and the height of the box around its corners and the length of its
    text: two detection lists that agree on these, detection by detection,
    get the same result, errors included. The recognised characters and
    the confidence are never consulted. *)
Theorem verdict_reads_box_sides_and_text_length (T : Thresholds) (w h : Z)
    (results results' : list Detection) :
  Forall2 (λ d d', bbox_dims d = bbox_dims d'
                   ∧ String.length (text d) = String.length (text d'))
          results results' →
  classify_text_type T w h results = classify_text_type T w h results'.
Proof. apply classify_dims_ext. Qed.

Lemma verdict_reads_box_sides_and_text_length_witness :
  classify_text_type DEFAULTS 100 100
    [mkDetection (box 0 0 50 50) "abc" 1]
  = classify_text_type DEFAULTS 100 100
      [mkDetection [(70, 20); (20, 70)] "xyz" 0].
Proof.
  apply verdict_reads_box_sides_and_text_length.
  constructor; [split; reflexivity|constructor].
Defined.

Lemma fold_left_min_shift (dx : Z) (rest : list Z) (x : Z) :
  fold_left Z.min (map (λ y, y + dx) rest) (x + dx)
  = fold_left Z.min rest x + dx.
Proof.
  revert x. induction rest as [|a rest IH]; intros x; simpl; [reflexivity|].
  rewrite Z.add_min_distr_r. apply IH.
Qed.

Lemma fold_left_max_shift (dx : Z) (rest : list Z) (x : Z) :
  fold_left Z.max (map (λ y, y + dx) rest) (x + dx)
  = fold_left Z.max rest x + dx.
Proof.
  revert x. induction rest as [|a rest IH]; intros x; simpl; [reflexivity|].
  rewrite Z.add_max_distr_r. apply IH.
Qed.

Lemma bbox_dims_shift (dx dy : Z) (d : Detection) :
  bbox_dims (shift_detection dx dy d) = bbox_dims d.
Proof.
  unfold bbox_dims, shift_detection. simpl. rewrite !map_map. simpl.
  rewrite <- (map_map fst (λ x, x + dx)), <- (map_map snd (λ y, y + dy)).
  destruct (bbox d) as [|[x y] rest]; simpl; [reflexivity|].
  rewrite !fold_left_min_shift, !fold_left_max_shift.
  f_equal. f_equal; lia.
Qed.

(** X5. The verdict does not depend on where the text is: moving each
    detection by an offset of its own, inside the image or out of it,
    leaves the result of the three-way classifier unchanged. *)
Theorem verdict_ignores_position (T : Thresholds) (w h : Z)
    (results results' : list Detection) :
  Forall2 (λ d d', ∃ dx dy, d' = shift_detection dx dy d) results results' →
  classify_text_type T w h results' = classify_text_type T w h results.
Proof.
  intros Hall. symmetry. apply classify_dims_ext.
  eapply Forall2_impl; [exact Hall|].
  intros d d' (dx & dy & ->). rewrite bbox_dims_shift. split; reflexivity.
Qed.

Lemma verdict_ignores_position_witness :
  classify_text_type DEFAULTS 100 100
    [mkDetection (box 40 40 60 50) "abc" 1]
  = classify_text_type DEFAULTS 100 100
      [mkDetection (box 0 0 20 10) "abc" 1].
Proof.
  apply verdict_ignores_position.
  constructor; [|constructor]. exists 40, 40. reflexivity.
Defined.

End Independence.

(** ** The order of the detections *)

Section Order.

Import ThreeWay.
Local Open Scope Z_scope.

Lemma py_fmax_proper (a a' b b' : Q) :
  (a == a')%Q → (b == b')%Q → (py_fmax a b == py_fmax a' b')%Q.
Proof.
  intros Ha Hb. unfold py_fmax. rewrite (Qleb_comp _ _ Hb _ _ Ha).
  destruct (Qle_bool b' a'); assumption.
Qed.

Lemma py_fmax_swap (a x y : Q) :
  (py_fmax (py_fmax a x) y == py_fmax (py_fmax a y) x)%Q.
Proof.
  unfold py_fmax.
  destruct (Qle_bool x a) eqn:Hxa, (Qle_bool y a) eqn:Hya;
    rewrite ?Hxa, ?Hya;
    try destruct (Qle_bool y x) eqn:Hyx;
    try destruct (Qle_bool x y) eqn:Hxy;
    rewrite ?Qle_bool_iff, ?Qle_bool_false in *; lra.
Qed.

Lemma acc_eq_refl (a : Acc) : acc_eq a a.
Proof. repeat split; reflexivity. Qed.

Lemma acc_eq_trans (a b c : Acc) : acc_eq a b → acc_eq b c → acc_eq a c.
Proof.
  intros (? & ? & ?) (? & ? & ?). repeat split; etransitivity; eauto.
Qed.

Lemma res_acc_eq_refl (r : Res Acc) : res_acc_eq r r.
Proof. destruct r; simpl; [apply acc_eq_refl|reflexivity]. Qed.

Lemma res_acc_eq_trans (r1 r2 r3 : Res Acc) :
  res_acc_eq r1 r2 → res_acc_eq r2 r3 → res_acc_eq r1 r3.
Proof.
  destruct r1, r2, r3; simpl; try tauto; try congruence.
  apply acc_eq_trans.
Qed.

Lemma res_acc_eq_bind (r r' : Res Acc) (k k' : Acc → Res Acc) :
  res_acc_eq r r' →
  (∀ a a', acc_eq a a' → res_acc_eq (k a) (k' a')) →
  res_acc_eq (r ≫= k) (r' ≫= k').
Proof.
  intros Hr Hk. destruct r, r'; simpl in *; try tauto.
  apply Hk, Hr.
Qed.

Lemma loop_body_proper (w : Z) (img_area : Q) (a a' : Acc) (d : Detection) :
  acc_eq a a' →
  res_acc_eq (loop_body w img_area a d) (loop_body w img_area a' d).
Proof.
  intros (Ht & Hm & Hw). unfold loop_body.
  destruct (bbox_dims d) as [[bw bh]|e]; simpl; [|reflexivity].
  destruct (bw * bh <=? 0); simpl; [repeat split; assumption|].
  destruct (py_div (inject_Z (bw * bh)) img_area); simpl; [|reflexivity].
  destruct (py_div (inject_Z bw) (inject_Z w)); simpl; [|reflexivity].
  repeat split; simpl.
  - rewrite Ht. reflexivity.
  - apply py_fmax_proper; [exact Hm|reflexivity].
  - apply py_fmax_proper; [exact Hw|reflexivity].
Qed.

Lemma region_loop_proper (w : Z) (img_area : Q) (l : list Detection)
    (a a' : Acc) :
  acc_eq a a' →
  res_acc_eq (region_loop w img_area l a) (region_loop w img_area l a').
Proof.
  revert a a'. induction l as [|d rest IH]; intros a a' Ha; simpl.
  - exact Ha.
  - apply res_acc_eq_bind; [apply loop_body_proper, Ha|exact IH].
Qed.

Lemma loop_body_raise (w : Z) (img_area : Q) (a : Acc) (d : Detection)
    (e : PyError) :
  bbox_dims d = Raise e → loop_body w img_area a d = Raise e.
Proof. intros E. unfold loop_body. rewrite E. reflexivity. Qed.

Lemma loop_body_swap (w : Z) (img_area : Q) (a : Acc) (d1 d2 : Detection) :
  w ≠ 0 → ¬ (img_area == 0)%Q →
  res_acc_eq
    (loop_body w img_area a d1 ≫= λ a1, loop_body w img_area a1 d2)
    (loop_body w img_area a d2 ≫= λ a2, loop_body w img_area a2 d1).
Proof.
  intros Hw HA.
  assert (∀ d,
      (∃ e, bbox_dims d = Raise e
            ∧ ∀ acc', loop_body w img_area acc' d = Raise e)
      ∨ (∀ acc', loop_body w img_area acc' d = Ok acc')
      ∨ (∃ bw bh, 0 < bw * bh ∧ ∀ acc', loop_body w img_area acc' d
           = Ok {| total_text_area :=
                     (total_text_area acc' + inject_Z (bw * bh))%Q;
                   max_region_area_ratio :=
                     py_fmax (max_region_area_ratio acc')
                             (inject_Z (bw * bh) / img_area)%Q;
                   max_region_width_ratio :=
                     py_fmax (max_region_width_ratio acc')
                             (inject_Z bw / inject_Z w)%Q |})) as Hcases.
  { intros d. destruct (bbox_dims d) as [[bw bh]|e] eqn:Hd.
    - destruct (Z_le_gt_dec (bw * bh) 0) as [Hle|Hgt].
      + right. left. intros acc'.
        apply (loop_body_skip _ _ _ _ (bw * bh)); [|exact Hle].
        apply bbox_area_dims. eauto.
      + right. right. exists bw, bh. split; [lia|]. intros acc'.
        apply loop_body_region; [exact Hd|lia|exact Hw|exact HA].
    - left. exists e. split; [reflexivity|].
      intros acc'. apply loop_body_raise, Hd. }
  destruct (Hcases d1) as [(e1 & He1 & H1)|[H1|(bw1 & bh1 & _ & H1)]],
           (Hcases d2) as [(e2 & He2 & H2)|[H2|(bw2 & bh2 & _ & H2)]];
    rewrite ?H1, ?H2; simpl; rewrite ?H1, ?H2; simpl;
    try reflexivity; try apply acc_eq_refl.
  - rewrite (bbox_dims_raise _ _ He1), (bbox_dims_raise _ _ He2). reflexivity.
  - repeat split; simpl; [lra|apply py_fmax_swap|apply py_fmax_swap].
Qed.

Lemma region_loop_two (w : Z) (img_area : Q) (d1 d2 : Detection)
    (l : list Detection) (a : Acc) :
  region_loop w img_area (d1 :: d2 :: l) a
  = (loop_body w img_area a d1 ≫= λ a1, loop_body w img_area a1 d2)
    ≫= region_loop w img_area l.
Proof.
  simpl. destruct (loop_body w img_area a d1); reflexivity.
Qed.

Lemma region_loop_perm (w : Z) (img_area : Q) (l l' : list Detection) :
  w ≠ 0 → ¬ (img_area == 0)%Q → l ≡ₚ l' →
  ∀ a a', acc_eq a a' →
    res_acc_eq (region_loop w img_area l a) (region_loop w img_area l' a').
Proof.
  intros Hw HA Hperm.
  induction Hperm as [|d l l' _ IH|d1 d2 l|l1 l2 l3 _ IH1 _ IH2];
    intros a a' Ha.
  - exact Ha.
  - simpl. apply res_acc_eq_bind; [apply loop_body_proper, Ha|exact IH].
  - rewrite !region_loop_two. apply res_acc_eq_bind.
    + eapply res_acc_eq_trans; [apply loop_body_swap; assumption|].
      apply res_acc_eq_bind; [apply loop_body_proper, Ha|].
      intros b b' Hb. apply loop_body_proper, Hb.
    + intros b b' Hb. apply region_loop_proper, Hb.
  - eapply res_acc_eq_trans; [apply IH1, acc_eq_refl|apply IH2, Ha].
Qed.

Lemma total_chars_perm (l l' : list Detection) :
  l ≡ₚ l' → total_chars l = total_chars l'.
Proof.
  induction 1 as [|d l l' _ IH|d1 d2 l|l1 l2 l3 _ IH1 _ IH2].
  - reflexivity.
  - rewrite !total_chars_cons, IH. reflexivity.
  - rewrite !total_chars_cons. lia.
  - congruence.
Qed.

Lemma rules_proper (T : Thresholds) (chars : Z) (m m' : Metrics) :
  acc_eq (m_acc m) (m_acc m') →
  (total_area_ratio m == total_area_ratio m')%Q →
  rules T chars m = rules T chars m'.
Proof.
  intros (_ & Ha & Hw) Ht.
  unfold rules, meme_test, overlay_test, Qge_bool.
  rewrite (Qleb_comp _ _ (Qeq_refl (MEME_MIN_REGION_AREA_RATIO T)) _ _ Ha),
    (Qleb_comp _ _ (Qeq_refl (MEME_MIN_WIDTH_RATIO T)) _ _ Hw),
    (Qleb_comp _ _ (Qeq_refl (MEME_MIN_TOTAL_AREA_RATIO T)) _ _ Ht),
    (Qleb_comp _ _ Ht _ _ (Qeq_refl (MAX_OVERLAY_TOTAL_AREA_RATIO T))),
    (Qleb_comp _ _ Ha _ _ (Qeq_refl (MAX_OVERLAY_REGION_AREA_RATIO T))).
  reflexivity.
Qed.

Lemma classify_perm (T : Thresholds) (w h : Z) (l l' : list Detection) :
  0 < w → 0 < h → l ≡ₚ l' →
  classify_text_type T w h l = classify_text_type T w h l'.
Proof.
  intros Hw Hh Hperm.
  assert (¬ (inject_Z (w * h) == 0)%Q) as HA
    by (apply inject_Z_nonzero; nia).
  unfold classify_text_type.
  rewrite (total_chars_perm _ _ Hperm).
  destruct l as [|d l], l' as [|d' l'];
    [reflexivity
    |apply Permutation_length in Hperm; discriminate
    |apply Permutation_length in Hperm; discriminate|].
  destruct (total_chars (d' :: l') <? MIN_TOTAL_CHARS T); [reflexivity|].
  unfold region_metrics.
  pose proof (region_loop_perm w _ _ _ ltac:(lia) HA Hperm
                acc0 acc0 (acc_eq_refl _)) as Hloop.
  destruct (region_loop w _ (d :: l) acc0) as [acc|e],
           (region_loop w _ (d' :: l') acc0) as [acc'|e'];
    simpl in *; try tauto; [|congruence].
  rewrite !(py_div_ok _ _ HA). simpl. f_equal.
  apply rules_proper; [exact Hloop|]. simpl.
  destruct Hloop as (Ht & _). rewrite Ht. reflexivity.
Qed.

(** X6. On an image with positive width and height, the result of the
    three-way classifier does not depend on the order in which the reader
    lists the detections: a permutation of the list gets the same verdict,
    or the same error. *)
Theorem verdict_ignores_order (T : Thresholds) (w h : Z)
    (results results' : list Detection) :
  0 < w → 0 < h → results ≡ₚ results' →
  classify_text_type T w h results = classify_text_type T w h results'.
Proof. apply classify_perm. Qed.

Lemma verdict_ignores_order_witness :
  classify_text_type DEFAULTS 100 100
    [mkDetection (box 0 0 20 10) "ab" 1;
     mkDetection (box 50 50 60 90) "c" 1;
     mkDetection (box 0 80 30 90) "" 1]
  = classify_text_type DEFAULTS 100 100
      [mkDetection (box 0 80 30 90) "" 1;
       mkDetection (box 0 0 20 10) "ab" 1;
       mkDetection (box 50 50 60 90) "c" 1].
Proof.
  apply verdict_ignores_order; [lia|lia|].
  symmetry. apply (Permutation_cons_append
    [mkDetection (box 0 0 20 10) "ab" 1; mkDetection (box 50 50 60 90) "c" 1]
    (mkDetection (box 0 80 30 90) "" 1)).
Defined.

End Order.

(** ** Reading a verdict backwards *)

Section Inversion.

Import ThreeWay.
Local Open Scope Z_scope.

Lemma rules_not_none (T : Thresholds) (chars : Z) (m : Metrics) :
  rules T chars m ≠ v_none.
Proof.
  unfold rules. destruct (meme_test T chars m); [discriminate|].
  destruct (overlay_test T m); discriminate.
Qed.

Lemma classify_none_iff (T : Thresholds) (w h : Z) (results : list Detection) :
  classify_text_type T w h results = Ok v_none ↔
  results = [] ∨ total_chars results < MIN_TOTAL_CHARS T.
Proof.
  split.
  - unfold classify_text_type. destruct results as [|d rest]; [auto|].
    destruct (total_chars (d :: rest) <? MIN_TOTAL_CHARS T) eqn:Hfloor.
    + intros _. right. apply Z.ltb_lt, Hfloor.
    + destruct (region_metrics w h (d :: rest)) as [m|e]; simpl;
        [|discriminate].
      intros [= H]. exfalso. exact (rules_not_none _ _ _ H).
  - intros [->|Hlt]; [apply classify_nil|apply classify_below_floor, Hlt].
Qed.

(** X7. With a positive character floor, the three-way classifier answers
    "none" exactly when the two-way classifier, given the same floor,
    answers "no text". *)
Theorem none_iff_no_text (T : Thresholds) (w h : Z)
    (results : list Detection) :
  0 < MIN_TOTAL_CHARS T →
  (classify_text_type T w h results = Ok v_none ↔
   TwoWay.has_text_easyocr (MIN_TOTAL_CHARS T) results = false).
Proof.
  intros Hmin. rewrite classify_none_iff.
  unfold TwoWay.has_text_easyocr. rewrite Z.leb_gt. split.
  - intros [->|Hlt]; [exact Hmin|exact Hlt].
  - auto.
Qed.

Lemma none_iff_no_text_witness :
  classify_text_type DEFAULTS 100 100
    [mkDetection (box 0 0 90 90) "ab" 1] = Ok v_none.
Proof.
  apply (none_iff_no_text DEFAULTS 100 100); [reflexivity|reflexivity].
Defined.

Lemma classify_overlay_inv (T : Thresholds) (w h : Z)
    (results : list Detection) :
  classify_text_type T w h results = Ok v_overlay →
  MIN_TOTAL_CHARS T <= total_chars results
  ∧ ∃ m, region_metrics w h results = Ok m
      ∧ meme_test T (total_chars results) m = false
      ∧ overlay_test T m = true.
Proof.
  unfold classify_text_type. destruct results as [|d rest]; [discriminate|].
  destruct (total_chars (d :: rest) <? MIN_TOTAL_CHARS T) eqn:Hfloor;
    [discriminate|].
  apply Z.ltb_ge in Hfloor.
  destruct (region_metrics w h (d :: rest)) as [m|e]; simpl; [|discriminate].
  unfold rules. intros [= H]. split; [exact Hfloor|]. exists m.
  destruct (meme_test T _ m); [discriminate|].
  destruct (overlay_test T m); [auto|discriminate].
Qed.

Lemma ratio_le_Z (a area n : Z) (d : positive) :
  0 < area → (inject_Z a / inject_Z area <= n # d)%Q →
  a * Z.pos d <= n * area.
Proof.
  intros Harea Hle.
  assert (0 < inject_Z area)%Q as HA by (rewrite <- (Zlt_Qlt 0); exact Harea).
  assert (inject_Z a <= (n # d) * inject_Z area)%Q as H.
  { assert (inject_Z a / inject_Z area * inject_Z area == inject_Z a)%Q
      as E by (field; intros E; rewrite E in HA; discriminate).
    rewrite <- E at 1.
    apply Qmult_le_compat_r; [exact Hle|apply Qlt_le_weak, HA]. }
  unfold Qle in H. simpl in H. lia.
Qed.

Lemma ratio_lt_Z (a area n : Z) (d : positive) :
  0 < area → (inject_Z a / inject_Z area < n # d)%Q →
  a * Z.pos d < n * area.
Proof.
  intros Harea Hlt.
  assert (0 < inject_Z area)%Q as HA by (rewrite <- (Zlt_Qlt 0); exact Harea).
  assert (inject_Z a < (n # d) * inject_Z area)%Q as H.
  { assert (inject_Z a / inject_Z area * inject_Z area == inject_Z a)%Q
      as E by (field; intros E; rewrite E in HA; discriminate).
    rewrite <- E at 1.
    apply Qmult_lt_compat_r; [exact HA|exact Hlt]. }
  unfold Qlt in H. simpl in H. lia.
Qed.

(** X8. Under the default thresholds, on an image with positive width and
    height, the verdict "overlay" is only given to little text: between 3
    and 24 characters, boxes of positive area that cover together at most
    8% of the image, each at most 4% of it and narrower than 70% of its
    width. *)
Theorem overlay_means_little_text (w h : Z) (results : list Detection) :
  0 < w → 0 < h →
  classify_text_type DEFAULTS w h results = Ok v_overlay →
  3 <= total_chars results < 25
  ∧ 100 * total_region_area results <= 8 * (w * h)
  ∧ ∀ d bw bh, d ∈ results → bbox_dims d = Ok (bw, bh) → 0 < bw * bh →
      100 * (bw * bh) <= 4 * (w * h) ∧ 10 * bw < 7 * w.
Proof.
  intros Hw Hh Hov.
  assert (0 < w * h) as Harea by nia.
  apply classify_overlay_inv in Hov as (Hfloor & m & Hm & Hmeme & Hover).
  apply overlay_test_true_iff in Hover as [Htot Hmax].
  apply not_true_iff_false in Hmeme. rewrite meme_test_true_iff in Hmeme.
  pose proof (region_metrics_inv _ _ _ _ Hm) as (Hloop & _ & Hratio).
  pose proof (region_loop_total_area _ _ _ _ _ Hloop) as Htotal.
  pose proof (region_loop_maxima _ _ _ _ _ Hloop) as (_ & Hall & _).
  simpl in Htotal, Htot, Hmax, Hfloor.
  split; [split; [exact Hfloor|]|split].
  - destruct (Z_lt_le_dec (total_chars results) 25); [assumption|].
    exfalso. apply Hmeme. right. right. right. assumption.
  - pose proof (ratio_le_Z (total_region_area results) (w * h) 8 100 Harea)
      as H. simpl in H. rewrite Z.mul_comm. apply H.
    rewrite Hratio, Htotal, Qplus_0_l in Htot. exact Htot.
  - intros d bw bh Hin Hd Hpos.
    destruct (Hall d bw bh Hin Hd Hpos) as [Ha Hwd]. split.
    + pose proof (ratio_le_Z (bw * bh) (w * h) 4 100 Harea) as H.
      simpl in H. rewrite Z.mul_comm. apply H.
      eapply Qle_trans; [exact Ha|exact Hmax].
    + pose proof (ratio_lt_Z bw w 7 10 Hw) as H.
      simpl in H. rewrite Z.mul_comm. apply H.
      eapply Qle_lt_trans; [exact Hwd|].
      apply Qnot_le_lt. intros Hge. apply Hmeme. right. left. exact Hge.
Qed.

Lemma overlay_means_little_text_witness :
  3 <= total_chars [mkDetection (box 0 0 20 10) "ab" 1;
                    mkDetection (box 50 50 60 60) "c" 1] < 25
  ∧ 100 * total_region_area [mkDetection (box 0 0 20 10) "ab" 1;
                             mkDetection (box 50 50 60 60) "c" 1]
    <= 8 * (100 * 100).
Proof.
  destruct (overlay_means_little_text 100 100
    [mkDetection (box 0 0 20 10) "ab" 1;
     mkDetection (box 50 50 60 60) "c" 1]) as (Hc & Ht & _);
    [lia|lia|reflexivity|].
  split; assumption.
Defined.

End Inversion.

(** ** Runs of the three-way driver *)

Section ThreeWayRuns.

Import ThreeWay.

Variable T : Thresholds.

(** The four ways an iteration goes: the file is kept; it is rejected and
    copied aside; the classifier raises; or the bytes of the file cannot
    be read, and the handler counts it when it has nothing to copy and
    raises when it has. *)
Lemma process_cases (st : State) (p : Path) :
  (passes T p ∧ process T st p = (keep p st, None))
  ∨ (refused T p ∧ process T st p = (reject p st, None))
  ∨ (∃ e, breaks T p e ∧ process T st p = (st, Some e))
  ∨ (image p = unreadable
     ∧ ((process T st p = (reject p st, None)
         ∧ REJECTED_DIR (reject p st) = REJECTED_DIR st)
        ∨ process T st p = (st, Some OSError))).
Proof.
  unfold process, passes, refused, breaks.
  destruct (image p) as [| | |w h results] eqn:Himg.
  - right. right. right. split; [reflexivity|].
    destruct (REJECTED_DIR st !! name p) eqn:Hc; [left|right; reflexivity].
    split; [reflexivity|]. simpl. unfold copy_if_absent. rewrite Hc.
    reflexivity.
  - right. left. auto.
  - right. right. left. exists OSError. auto.
  - destruct (classify_text_type T w h results) as [[| |]|e] eqn:Hc.
    + left. split; [|reflexivity]. exists w, h, results. auto.
    + left. split; [|reflexivity]. exists w, h, results. auto.
    + right. left. split; [|reflexivity]. right. exists w, h, results. auto.
    + right. right. left. exists e. split; [|reflexivity].
      right. exists w, h, results. auto.
Qed.

Lemma unreadable_not_routed (p : Path) :
  image p = unreadable → ¬ passes T p ∧ ¬ refused T p ∧ ∀ e, ¬ breaks T p e.
Proof.
  intros Hu. unfold passes, refused, breaks. rewrite Hu.
  split; [|split; [|intros e]].
  - intros (w & h & r & Hi & _). discriminate.
  - intros [Ho|(w & h & r & Hi & _)]; discriminate.
  - intros [[Hi _]|(w & h & r & Hi & _)]; discriminate.
Qed.

Lemma passes_not_refused (p : Path) : passes T p → ¬ refused T p.
Proof.
  intros (w & h & r & Hi & Hc) [Ho|(w' & h' & r' & Hi' & Hc')]; [congruence|].
  rewrite Hi in Hi'. injection Hi' as <- <- <-.
  destruct Hc as [Hc|Hc]; congruence.
Qed.

Lemma for_each_app (l1 l2 : list Path) (st : State) :
  for_each T (l1 ++ l2) st
  = match for_each T l1 st with
    | (st1, None) => for_each T l2 st1
    | (st1, Some e) => (st1, Some e)
    end.
Proof.
  revert st. induction l1 as [|p l1 IH]; intros st; simpl; [reflexivity|].
  destruct (process T st p) as [st' [e|]]; [reflexivity|apply IH].
Qed.

Lemma for_each_counts (all_paths : list Path) (st : State) :
  num_kept (for_each T all_paths st).1
  + num_rejected (for_each T all_paths st).1
  <= num_kept st + num_rejected st + length all_paths
  ∧ ((for_each T all_paths st).2 = None →
     num_kept (for_each T all_paths st).1
     + num_rejected (for_each T all_paths st).1
     = num_kept st + num_rejected st + length all_paths).
Proof.
  revert st. induction all_paths as [|p rest IH]; intros st; simpl.
  - lia.
  - destruct (process_cases st p)
      as [[_ ->]|[[_ ->]|[(e & _ & ->)|(_ & [[-> _]| ->])]]]; simpl.
    + destruct (IH (keep p st)) as [Hle Heq]. simpl in *.
      split; [lia|]. intros Hnone. specialize (Heq Hnone). lia.
    + destruct (IH (reject p st)) as [Hle Heq]. simpl in *.
      split; [lia|]. intros Hnone. specialize (Heq Hnone). lia.
    + split; [lia|discriminate].
    + destruct (IH (reject p st)) as [Hle Heq]. simpl in *.
      split; [lia|]. intros Hnone. specialize (Heq Hnone). lia.
    + split; [lia|discriminate].
Qed.

Lemma copy_if_absent_lookup_inv (p : Path) (dir : gmap string string)
    (n c : string) :
  copy_if_absent p dir !! n = Some c →
  dir !! n = Some c ∨ (n = name p ∧ c = contents p).
Proof.
  unfold copy_if_absent. destruct (dir !! name p) eqn:E; [auto|].
  intros H. destruct (decide (name p = n)) as [<-|Hne].
  - rewrite lookup_insert_eq in H. injection H as <-. auto.
  - rewrite lookup_insert_ne in H by exact Hne. auto.
Qed.

Lemma for_each_from (all_paths : list Path) (st : State) (n c : string) :
  (DST_DIR (for_each T all_paths st).1 !! n = Some c →
     DST_DIR st !! n = Some c
     ∨ ∃ p, p ∈ all_paths ∧ name p = n ∧ contents p = c ∧ passes T p)
  ∧ (REJECTED_DIR (for_each T all_paths st).1 !! n = Some c →
     REJECTED_DIR st !! n = Some c
     ∨ ∃ p, p ∈ all_paths ∧ name p = n ∧ contents p = c ∧ refused T p).
Proof.
  revert st. induction all_paths as [|p rest IH]; intros st; simpl.
  - auto.
  - destruct (process_cases st p)
      as [[Hp ->]|[[Hp ->]|[(e & _ & ->)|(_ & [[-> Hsame]| ->])]]]; simpl;
      [| |auto| |auto].
    + destruct (IH (keep p st)) as [Hd Hr]. split.
      * intros H. destruct (Hd H) as [H'|(q & Hin & ?)].
        -- simpl in H'. apply copy_if_absent_lookup_inv in H' as [?|[-> ->]];
             [auto|]. right. exists p. split; [left|]. auto.
        -- right. exists q. split; [right; exact Hin|assumption].
      * intros H. destruct (Hr H) as [H'|(q & Hin & ?)]; [auto|].
        right. exists q. split; [right; exact Hin|assumption].
    + destruct (IH (reject p st)) as [Hd Hr]. split.
      * intros H. destruct (Hd H) as [H'|(q & Hin & ?)]; [auto|].
        right. exists q. split; [right; exact Hin|assumption].
      * intros H. destruct (Hr H) as [H'|(q & Hin & ?)].
        -- simpl in H'. apply copy_if_absent_lookup_inv in H' as [?|[-> ->]];
             [auto|]. right. exists p. split; [left|]. auto.
        -- right. exists q. split; [right; exact Hin|assumption].
    + destruct (IH (reject p st)) as [Hd Hr]. rewrite Hsame in Hr. split.
      * intros H. destruct (Hd H) as [H'|(q & Hin & ?)]; [auto|].
        right. exists q. split; [right; exact Hin|assumption].
      * intros H. destruct (Hr H) as [H'|(q & Hin & ?)]; [auto|].
        right. exists q. split; [right; exact Hin|assumption].
Qed.

Lemma for_each_lands (all_paths : list Path) (st : State) (p : Path) :
  (for_each T all_paths st).2 = None → p ∈ all_paths →
  (passes T p → is_Some (DST_DIR (for_each T all_paths st).1 !! name p))
  ∧ (refused T p →
     is_Some (REJECTED_DIR (for_each T all_paths st).1 !! name p)).
Proof.
  revert st. induction all_paths as [|q rest IH]; intros st Hnone Hin;
    [inversion Hin|].
  simpl in *.
  destruct (process_cases st q)
    as [[Hq Hpr]|[[Hq Hpr]|[(e & _ & Hpr)|(Hq & [[Hpr _]|Hpr])]]];
    rewrite Hpr in *; simpl in *; [| |discriminate| |discriminate].
  - apply elem_of_cons in Hin as [->|Hin]; [|apply IH; assumption].
    split.
    + intros _.
      destruct (copy_if_absent_lookup q (DST_DIR st)) as [c Hc].
      exists c. eapply lookup_weaken; [exact Hc|].
      apply (for_each_dirs T rest (keep q st)).
    + intros Hr. exfalso. exact (passes_not_refused _ Hq Hr).
  - apply elem_of_cons in Hin as [->|Hin]; [|apply IH; assumption].
    split.
    + intros Hp. exfalso. exact (passes_not_refused _ Hp Hq).
    + intros _.
      destruct (copy_if_absent_lookup q (REJECTED_DIR st)) as [c Hc].
      exists c. eapply lookup_weaken; [exact Hc|].
      apply (for_each_dirs T rest (reject q st)).
  - apply elem_of_cons in Hin as [->|Hin]; [|apply IH; assumption].
    destruct (unreadable_not_routed q Hq) as (Hnp & Hnr & _).
    split; intros; contradiction.
Qed.

Lemma for_each_breaks (l1 l2 : list Path) (p : Path) (e : PyError)
    (st : State) :
  (for_each T l1 st).2 = None → breaks T p e →
  for_each T (l1 ++ p :: l2) st = ((for_each T l1 st).1, Some e).
Proof.
  intros Hnone Hb. rewrite for_each_app.
  destruct (for_each T l1 st) as [st1 [e1|]]; [discriminate|]. simpl.
  destruct (process_cases st1 p)
    as [[Hp _]|[[Hp _]|[(e' & Hb' & ->)|(Hu & _)]]];
    [| | |exfalso; exact (proj2 (proj2 (unreadable_not_routed p Hu)) e Hb)].
  - exfalso. destruct Hp as (w & h & r & Hi & Hc), Hb as [[Hi' _]|(w' & h' & r' & Hi' & Hc')];
      [congruence|]. rewrite Hi in Hi'. injection Hi' as <- <- <-.
    destruct Hc; congruence.
  - exfalso. destruct Hp as [Hi|(w & h & r & Hi & Hc)],
      Hb as [[Hi' _]|(w' & h' & r' & Hi' & Hc')]; congruence.
  - assert (e' = e) as ->; [|reflexivity].
    destruct Hb as [[Hi ->]|(w & h & r & Hi & Hc)],
      Hb' as [[Hi' ->]|(w' & h' & r' & Hi' & Hc')]; congruence.
Qed.

Lemma for_each_completes (all_paths : list Path) (st : State)
    (rejected : gmap string string) :
  rejected ⊆ REJECTED_DIR st →
  Forall (λ p, match image p with
               | unreadable => is_Some (rejected !! name p)
               | open_fails => True
               | decode_fails => False
               | pixels w h results =>
                   (0 < w)%Z ∧ (0 < h)%Z ∧ Forall (λ d, bbox d ≠ []) results
               end) all_paths →
  (for_each T all_paths st).2 = None.
Proof.
  intros Hsub Hall. revert st Hsub.
  induction Hall as [|p rest Hp _ IH]; intros st Hsub; simpl; [reflexivity|].
  assert (rejected ⊆ REJECTED_DIR (reject p st)) as Hsub'.
  { etrans; [exact Hsub|]. apply copy_if_absent_subseteq. }
  unfold process. destruct (image p) as [| | |w h results].
  - destruct Hp as [c Hc].
    rewrite (lookup_weaken _ _ _ _ Hc Hsub). apply IH, Hsub'.
  - apply IH, Hsub'.
  - tauto.
  - destruct Hp as (Hw & Hh & Hboxes).
    destruct (classify_total T w h results Hw Hh Hboxes) as (v & ->).
    destruct v; apply IH; assumption.
Qed.

End ThreeWayRuns.

(** ** Runs of the two-way driver *)

Section TwoWayRuns.

Import TwoWay.

Variable MIN_TOTAL_CHARS : Z.

Lemma for_each_app2 (l1 l2 : list Path) (st : State) :
  for_each MIN_TOTAL_CHARS (l1 ++ l2) st
  = match for_each MIN_TOTAL_CHARS l1 st with
    | (st1, None) => for_each MIN_TOTAL_CHARS l2 st1
    | (st1, Some e) => (st1, Some e)
    end.
Proof.
  revert st. induction l1 as [|p l1 IH]; intros st; simpl; [reflexivity|].
  destruct (process MIN_TOTAL_CHARS st p) as [st' [e|]];
    [reflexivity|apply IH].
Qed.

Lemma for_each_counts2 (all_paths : list Path) (st : State) :
  num_kept (for_each MIN_TOTAL_CHARS all_paths st).1
  + num_rejected (for_each MIN_TOTAL_CHARS all_paths st).1
  <= num_kept st + num_rejected st + length all_paths
  ∧ ((for_each MIN_TOTAL_CHARS all_paths st).2 = None →
     num_kept (for_each MIN_TOTAL_CHARS all_paths st).1
     + num_rejected (for_each MIN_TOTAL_CHARS all_paths st).1
     = num_kept st + num_rejected st + length all_paths).
Proof.
  revert st. induction all_paths as [|p rest IH]; intros st; simpl.
  - lia.
  - unfold process. destruct (image p) as [| | |w h results]; simpl.
    + destruct (IH (reject st)) as [Hle Heq]. simpl in *.
      split; [lia|]. intros Hnone. specialize (Heq Hnone). lia.
    + destruct (IH (reject st)) as [Hle Heq]. simpl in *.
      split; [lia|]. intros Hnone. specialize (Heq Hnone). lia.
    + split; [lia|discriminate].
    + destruct (has_text_easyocr MIN_TOTAL_CHARS results); simpl.
      * destruct (IH (reject st)) as [Hle Heq]. simpl in *.
        split; [lia|]. intros Hnone. specialize (Heq Hnone). lia.
      * destruct (IH (keep p st)) as [Hle Heq]. simpl in *.
        split; [lia|]. intros Hnone. specialize (Heq Hnone). lia.
Qed.

Lemma for_each_from2 (all_paths : list Path) (st : State) (n c : string) :
  DST_DIR (for_each MIN_TOTAL_CHARS all_paths st).1 !! n = Some c →
  DST_DIR st !! n = Some c
  ∨ ∃ p w h results, p ∈ all_paths ∧ name p = n ∧ contents p = c
      ∧ image p = pixels w h results
      ∧ has_text_easyocr MIN_TOTAL_CHARS results = false.
Proof.
  revert st. induction all_paths as [|p rest IH]; intros st; simpl; [auto|].
  assert (∀ st', DST_DIR st' = DST_DIR st →
            DST_DIR (for_each MIN_TOTAL_CHARS rest st').1 !! n = Some c →
            DST_DIR st !! n = Some c
            ∨ ∃ q w h results, q ∈ p :: rest ∧ name q = n ∧ contents q = c
                ∧ image q = pixels w h results
                ∧ has_text_easyocr MIN_TOTAL_CHARS results = false) as Hsame.
  { intros st' Hst' H. destruct (IH _ H) as [H'|(q & w & h & r & Hin & ?)].
    - left. congruence.
    - right. exists q, w, h, r. split; [right; exact Hin|assumption]. }
  unfold process. destruct (image p) as [| | |w h results] eqn:Himg; simpl.
  - apply Hsame. reflexivity.
  - apply Hsame. reflexivity.
  - auto.
  - destruct (has_text_easyocr MIN_TOTAL_CHARS results) eqn:Htext; simpl.
    + apply Hsame. reflexivity.
    + intros H. destruct (IH _ H) as [H'|(q & w' & h' & r & Hin & ?)].
      * simpl in H'. apply copy_if_absent_lookup_inv in H' as [?|[-> ->]];
          [auto|]. right. exists p, w, h, results. split; [left|]. auto.
      * right. exists q, w', h', r. split; [right; exact Hin|assumption].
Qed.

Lemma for_each_completes2 (all_paths : list Path) (st : State) :
  Forall (λ p, image p ≠ decode_fails) all_paths →
  (for_each MIN_TOTAL_CHARS all_paths st).2 = None.
Proof.
  intros Hall. revert st.
  induction Hall as [|p rest Hp _ IH]; intros st; simpl; [reflexivity|].
  unfold process. destruct (image p) as [| | |w h results];
    [apply IH|apply IH|congruence|].
  destruct (has_text_easyocr MIN_TOTAL_CHARS results); apply IH.
Qed.

End TwoWayRuns.

(** ** The two policies side by side *)

Section Policies.

Lemma stricter_policy (T : ThreeWay.Thresholds) (all_paths : list Path)
    (st3 : ThreeWay.State) (st2 : TwoWay.State) :
  (0 < ThreeWay.MIN_TOTAL_CHARS T)%Z →
  (ThreeWay.for_each T all_paths st3).2 = None →
  TwoWay.num_kept st2 <= ThreeWay.num_kept st3 →
  dom (TwoWay.DST_DIR st2) ⊆ dom (ThreeWay.DST_DIR st3) →
  (TwoWay.for_each (ThreeWay.MIN_TOTAL_CHARS T) all_paths st2).2 = None
  ∧ TwoWay.num_kept
      (TwoWay.for_each (ThreeWay.MIN_TOTAL_CHARS T) all_paths st2).1
    <= ThreeWay.num_kept (ThreeWay.for_each T all_paths st3).1
  ∧ dom (TwoWay.DST_DIR
           (TwoWay.for_each (ThreeWay.MIN_TOTAL_CHARS T) all_paths st2).1)
    ⊆ dom (ThreeWay.DST_DIR (ThreeWay.for_each T all_paths st3).1).
Proof.
  intros Hmin. revert st3 st2.
  induction all_paths as [|p rest IH]; intros st3 st2 Hnone Hk Hd; simpl.
  - auto.
  - simpl in Hnone. unfold ThreeWay.process, TwoWay.process in *.
    assert (∀ dir dir' : gmap string string,
              dom dir ⊆ dom dir' →
              dom (copy_if_absent p dir) ⊆ dom (copy_if_absent p dir'))
      as Hcopy.
    { intros dir dir' Hsub n Hn.
      apply elem_of_dom in Hn as [c Hc].
      apply copy_if_absent_lookup_inv in Hc as [Hc|[-> _]].
      - apply elem_of_dom. eapply lookup_weaken_is_Some;
          [|apply copy_if_absent_subseteq].
        apply elem_of_dom, Hsub, elem_of_dom. eauto.
      - apply elem_of_dom, copy_if_absent_lookup. }
    assert (∀ dir dir' : gmap string string,
              dom dir ⊆ dom dir' → dom dir ⊆ dom (copy_if_absent p dir'))
      as Hgrow.
    { intros dir dir' Hsub. etrans; [exact Hsub|].
      apply subseteq_dom, copy_if_absent_subseteq. }
    destruct (image p) as [| | |w h results].
    + destruct (ThreeWay.REJECTED_DIR st3 !! name p); [|discriminate].
      apply IH; simpl; assumption.
    + apply IH; simpl; assumption.
    + discriminate.
    + destruct (ThreeWay.classify_text_type T w h results) as [v|e] eqn:Hc;
        [|discriminate].
      destruct (TwoWay.has_text_easyocr (ThreeWay.MIN_TOTAL_CHARS T) results)
        eqn:Htext.
      * destruct v; apply IH; simpl; try assumption; try lia; auto.
      * unfold TwoWay.has_text_easyocr in Htext. apply Z.leb_gt in Htext.
        rewrite (proj2 (classify_none_iff T w h results) (or_intror Htext))
          in Hc.
        injection Hc as <-.
        apply IH; simpl; [assumption|lia|auto].
Qed.

Lemma candidates_elem (f : Path → bool) (src : list Path) (p : Path) :
  p ∈ List.filter f src ↔ p ∈ src ∧ f p = true.
Proof. rewrite !list_elem_of_In. apply filter_In. Qed.

(** X9. Every candidate file is counted once: when a run of either driver
    ends without an exception, [num_kept + num_rejected] is the number of
    candidate files of the source tree; when it ends with one, the sum is
    at most that number. *)
Theorem tallies_count_every_candidate (T : ThreeWay.Thresholds)
    (MIN_TOTAL_CHARS : Z) (src : list Path)
    (dst rejected : gmap string string) :
  (ThreeWay.num_kept (ThreeWay.main T src dst rejected).1
   + ThreeWay.num_rejected (ThreeWay.main T src dst rejected).1
   <= length (List.filter (λ p, is_file p && ThreeWay.is_image p) src)
   ∧ ((ThreeWay.main T src dst rejected).2 = None →
      ThreeWay.num_kept (ThreeWay.main T src dst rejected).1
      + ThreeWay.num_rejected (ThreeWay.main T src dst rejected).1
      = length (List.filter (λ p, is_file p && ThreeWay.is_image p) src)))
  ∧ (TwoWay.num_kept (TwoWay.main MIN_TOTAL_CHARS src dst).1
     + TwoWay.num_rejected (TwoWay.main MIN_TOTAL_CHARS src dst).1
     <= length (List.filter (λ p, is_file p && TwoWay.is_image p) src)
     ∧ ((TwoWay.main MIN_TOTAL_CHARS src dst).2 = None →
        TwoWay.num_kept (TwoWay.main MIN_TOTAL_CHARS src dst).1
        + TwoWay.num_rejected (TwoWay.main MIN_TOTAL_CHARS src dst).1
        = length (List.filter (λ p, is_file p && TwoWay.is_image p) src))).
Proof.
  split.
  - apply (for_each_counts T _ (ThreeWay.mkState dst rejected 0 0)).
  - apply (for_each_counts2 MIN_TOTAL_CHARS _ (TwoWay.mkState dst 0 0)).
Qed.

(** X10. What a run of the three-way driver adds to [DST_DIR] is a copy,
    under its own name, of a candidate file that the classifier found
    "none" or "overlay"; what it adds to [REJECTED_DIR] is a copy of a
    candidate that [Image.open] refused or that was found "meme". The two-way
    driver adds to [DST_DIR] only copies of candidates without text. *)
Theorem destinations_hold_what_was_routed (T : ThreeWay.Thresholds)
    (MIN_TOTAL_CHARS : Z) (src : list Path)
    (dst rejected : gmap string string) (n c : string) :
  (ThreeWay.DST_DIR (ThreeWay.main T src dst rejected).1 !! n = Some c →
     dst !! n = Some c
     ∨ ∃ p, p ∈ src ∧ is_file p = true ∧ ThreeWay.is_image p = true
         ∧ name p = n ∧ contents p = c ∧ passes T p)
  ∧ (ThreeWay.REJECTED_DIR (ThreeWay.main T src dst rejected).1 !! n
     = Some c →
     rejected !! n = Some c
     ∨ ∃ p, p ∈ src ∧ is_file p = true ∧ ThreeWay.is_image p = true
         ∧ name p = n ∧ contents p = c ∧ refused T p)
  ∧ (TwoWay.DST_DIR (TwoWay.main MIN_TOTAL_CHARS src dst).1 !! n = Some c →
     dst !! n = Some c
     ∨ ∃ p w h results, p ∈ src ∧ is_file p = true
         ∧ TwoWay.is_image p = true ∧ name p = n ∧ contents p = c
         ∧ image p = pixels w h results
         ∧ TwoWay.has_text_easyocr MIN_TOTAL_CHARS results = false).
Proof.
  unfold ThreeWay.main, TwoWay.main.
  destruct (for_each_from T
    (List.filter (λ p, is_file p && ThreeWay.is_image p) src)
    (ThreeWay.mkState dst rejected 0 0) n c) as [Hd Hr].
  split; [|split].
  - intros H. destruct (Hd H) as [?|(p & Hin & ?)]; [auto|].
    apply candidates_elem in Hin as [Hin Hf]. apply andb_prop in Hf as [? ?].
    right. exists p. auto.
  - intros H. destruct (Hr H) as [?|(p & Hin & ?)]; [auto|].
    apply candidates_elem in Hin as [Hin Hf]. apply andb_prop in Hf as [? ?].
    right. exists p. auto.
  - intros H.
    destruct (for_each_from2 MIN_TOTAL_CHARS _ _ n c H)
      as [?|(p & w & h & r & Hin & ?)]; [auto|].
    apply candidates_elem in Hin as [Hin Hf]. apply andb_prop in Hf as [? ?].
    right. exists p, w, h, r. auto.
Qed.

Lemma destinations_hold_what_was_routed_witness :
  ∃ p, p ∈ [mkPath "m.png" ".png" true "mm"
              (pixels 100 100 [mkDetection (box 0 0 50 50) "abc" 1]);
            mkPath "k.jpg" ".jpg" true "kk" (pixels 100 100 [])]
    ∧ name p = "k.jpg" ∧ contents p = "kk" ∧ passes ThreeWay.DEFAULTS p.
Proof.
  destruct (proj1 (destinations_hold_what_was_routed ThreeWay.DEFAULTS 3
    [mkPath "m.png" ".png" true "mm"
       (pixels 100 100 [mkDetection (box 0 0 50 50) "abc" 1]);
     mkPath "k.jpg" ".jpg" true "kk" (pixels 100 100 [])]
    (∅ : gmap string string) (∅ : gmap string string) "k.jpg" "kk"))
    as [H|(p & Hin & _ & _ & Hn & Hc & Hp)]; [vm_compute; reflexivity| |].
  - exfalso. rewrite lookup_empty in H. discriminate.
  - exists p. auto.
Defined.

(** X11. After a run of the three-way driver that ends without an
    exception, every candidate file has an entry of its name in the
    directory its verdict routes it to: [DST_DIR] for "none" and
    "overlay", [REJECTED_DIR] for "meme" and for files that are no
    image. *)
Theorem every_candidate_lands (T : ThreeWay.Thresholds) (src : list Path)
    (dst rejected : gmap string string) (p : Path) :
  (ThreeWay.main T src dst rejected).2 = None →
  p ∈ src → is_file p = true → ThreeWay.is_image p = true →
  (passes T p →
     is_Some (ThreeWay.DST_DIR (ThreeWay.main T src dst rejected).1
              !! name p))
  ∧ (refused T p →
     is_Some (ThreeWay.REJECTED_DIR (ThreeWay.main T src dst rejected).1
              !! name p)).
Proof.
  intros Hnone Hin Hfile Himg. unfold ThreeWay.main in *.
  apply for_each_lands; [exact Hnone|].
  apply candidates_elem. split; [exact Hin|]. rewrite Hfile, Himg. reflexivity.
Qed.

Lemma every_candidate_lands_witness :
  is_Some (ThreeWay.REJECTED_DIR
    (ThreeWay.main ThreeWay.DEFAULTS
       [mkPath "k.jpg" ".jpg" true "kk" (pixels 100 100 []);
        mkPath "bad.png" ".png" true "??" open_fails] ∅ ∅).1 !! "bad.png").
Proof.
  apply (every_candidate_lands ThreeWay.DEFAULTS
    [mkPath "k.jpg" ".jpg" true "kk" (pixels 100 100 []);
     mkPath "bad.png" ".png" true "??" open_fails] ∅ ∅
    (mkPath "bad.png" ".png" true "??" open_fails)).
  - vm_compute. reflexivity.
  - right. left.
  - reflexivity.
  - vm_compute. reflexivity.
  - left. reflexivity.
Defined.

Lemma Forall_candidates (f : Path → bool) (P : Path → Prop)
    (src : list Path) :
  Forall (λ p, f p = true → P p) src → Forall P (List.filter f src).
Proof.
  induction 1 as [|p rest Hp _ IH]; simpl; [constructor|].
  destruct (f p) eqn:Hf; [constructor; auto|exact IH].
Qed.

(** X12. A run of the three-way driver meets no exception when every
    candidate file either fails to open and can be copied aside, or cannot
    be read at all but has a file of its name in [REJECTED_DIR] from the
    start, or decodes to an image of positive width and height whose
    detections have at least one corner each. A run of the two-way driver
    meets no exception when no candidate that opens fails to decode: a
    file that cannot be opened never stops it. *)
Theorem run_completes_on_sound_files (T : ThreeWay.Thresholds)
    (MIN_TOTAL_CHARS : Z) (src : list Path)
    (dst rejected : gmap string string) :
  (Forall (λ p, is_file p && ThreeWay.is_image p = true →
                match image p with
                | unreadable => is_Some (rejected !! name p)
                | open_fails => True
                | decode_fails => False
                | pixels w h results =>
                    (0 < w)%Z ∧ (0 < h)%Z
                    ∧ Forall (λ d, bbox d ≠ []) results
                end) src →
   (ThreeWay.main T src dst rejected).2 = None)
  ∧ (Forall (λ p, is_file p && TwoWay.is_image p = true →
                  image p ≠ decode_fails) src →
     (TwoWay.main MIN_TOTAL_CHARS src dst).2 = None).
Proof.
  split; intros Hall.
  - apply (for_each_completes T _ _ rejected); [reflexivity|].
    apply Forall_candidates, Hall.
  - apply for_each_completes2, Forall_candidates, Hall.
Qed.

Lemma run_completes_on_sound_files_witness :
  (ThreeWay.main ThreeWay.DEFAULTS
     [mkPath "bad.png" ".png" true "??" open_fails;
      mkPath "locked.png" ".png" true "" unreadable;
      mkPath "notes.txt" ".txt" true "zz" decode_fails;
      mkPath "m.png" ".png" true "mm"
        (pixels 100 100 [mkDetection (box 0 0 50 50) "abc" 1])]
     ∅ {["locked.png" := "old"]}).2
  = None.
Proof.
  apply (proj1 (run_completes_on_sound_files ThreeWay.DEFAULTS 3 _ ∅
                  {["locked.png" := "old"]})).
  repeat constructor; try discriminate; intros _; simpl; try lia; auto.
Defined.

Lemma candidates_app_cons (f : Path → bool) (l1 l2 : list Path) (p : Path) :
  f p = true →
  List.filter f (l1 ++ p :: l2) = List.filter f l1 ++ p :: List.filter f l2.
Proof. intros Hf. rewrite List.filter_app. simpl. rewrite Hf. reflexivity. Qed.

(** X13. The classifiers are called outside the [try]: when the three-way
    classifier raises on a candidate file (a decoding failure, an empty
    box, a division by a zero image area), or the two-way classifier fails
    to decode one, the run ends there with that exception, in the state
    the files before it left; the files after it are not processed. *)
Theorem classifier_exception_ends_run (T : ThreeWay.Thresholds)
    (MIN_TOTAL_CHARS : Z) (l1 l2 : list Path) (p : Path) (e : PyError)
    (dst rejected : gmap string string) :
  is_file p = true → ThreeWay.is_image p = true →
  ((ThreeWay.main T l1 dst rejected).2 = None → breaks T p e →
     ThreeWay.main T (l1 ++ p :: l2) dst rejected
     = ((ThreeWay.main T l1 dst rejected).1, Some e))
  ∧ ((TwoWay.main MIN_TOTAL_CHARS l1 dst).2 = None →
     image p = decode_fails →
     TwoWay.main MIN_TOTAL_CHARS (l1 ++ p :: l2) dst
     = ((TwoWay.main MIN_TOTAL_CHARS l1 dst).1, Some OSError)).
Proof.
  intros Hfile Himg. split.
  - intros Hnone Hb. unfold ThreeWay.main in *.
    rewrite candidates_app_cons by (rewrite Hfile, Himg; reflexivity).
    apply for_each_breaks; assumption.
  - intros Hnone Hdec. unfold TwoWay.main in *.
    rewrite candidates_app_cons by (rewrite Hfile; exact Himg).
    rewrite for_each_app2.
    destruct (TwoWay.for_each MIN_TOTAL_CHARS _ _) as [st1 [e1|]];
      [discriminate|].
    simpl. unfold TwoWay.process. rewrite Hdec. reflexivity.
Qed.

Lemma classifier_exception_ends_run_witness :
  ThreeWay.main ThreeWay.DEFAULTS
    ([mkPath "k.jpg" ".jpg" true "kk" (pixels 100 100 [])]
     ++ mkPath "e.png" ".png" true "ee"
          (pixels 100 100 [mkDetection [] "abc" 1])
     :: [mkPath "l.jpg" ".jpg" true "ll" (pixels 100 100 [])]) ∅ ∅
  = (ThreeWay.mkState {["k.jpg" := "kk"]} ∅ 1 0, Some ValueError).
Proof.
  rewrite (proj1 (classifier_exception_ends_run ThreeWay.DEFAULTS 3
    [mkPath "k.jpg" ".jpg" true "kk" (pixels 100 100 [])]
    [mkPath "l.jpg" ".jpg" true "ll" (pixels 100 100 [])]
    (mkPath "e.png" ".png" true "ee"
       (pixels 100 100 [mkDetection [] "abc" 1]))
    ValueError ∅ ∅ eq_refl eq_refl)).
  - vm_compute. reflexivity.
  - vm_compute. reflexivity.
  - right. exists 100%Z, 100%Z, [mkDetection [] "abc" 1].
    split; reflexivity.
Defined.

(** X14. The two-way policy is the stricter one. With the same positive
    character floor and the same starting [DST_DIR], when the three-way
    run ends without an exception so does the two-way run, it keeps no
    more files, and every name it has in [DST_DIR] the three-way run has
    there too. *)
Theorem two_way_keeps_no_more (T : ThreeWay.Thresholds) (src : list Path)
    (dst rejected : gmap string string) :
  (0 < ThreeWay.MIN_TOTAL_CHARS T)%Z →
  (ThreeWay.main T src dst rejected).2 = None →
  (TwoWay.main (ThreeWay.MIN_TOTAL_CHARS T) src dst).2 = None
  ∧ TwoWay.num_kept (TwoWay.main (ThreeWay.MIN_TOTAL_CHARS T) src dst).1
    <= ThreeWay.num_kept (ThreeWay.main T src dst rejected).1
  ∧ dom (TwoWay.DST_DIR
           (TwoWay.main (ThreeWay.MIN_TOTAL_CHARS T) src dst).1)
    ⊆ dom (ThreeWay.DST_DIR (ThreeWay.main T src dst rejected).1).
Proof.
  intros Hmin Hnone. unfold ThreeWay.main, TwoWay.main in *.
  apply (stricter_policy T _ (ThreeWay.mkState dst rejected 0 0)
           (TwoWay.mkState dst 0 0) Hmin Hnone); simpl; [lia|reflexivity].
Qed.

Lemma two_way_keeps_no_more_witness :
  TwoWay.num_kept
    (TwoWay.main 3
       [mkPath "o.png" ".png" true "oo"
          (pixels 100 100 [mkDetection (box 0 0 10 10) "abc" 1]);
        mkPath "k.jpg" ".jpg" true "kk" (pixels 100 100 [])] ∅).1
  <= ThreeWay.num_kept
       (ThreeWay.main ThreeWay.DEFAULTS
          [mkPath "o.png" ".png" true "oo"
             (pixels 100 100 [mkDetection (box 0 0 10 10) "abc" 1]);
           mkPath "k.jpg" ".jpg" true "kk" (pixels 100 100 [])] ∅ ∅).1.
Proof.
  apply (two_way_keeps_no_more ThreeWay.DEFAULTS
    [mkPath "o.png" ".png" true "oo"
       (pixels 100 100 [mkDetection (box 0 0 10 10) "abc" 1]);
     mkPath "k.jpg" ".jpg" true "kk" (pixels 100 100 [])] ∅ ∅).
  - reflexivity.
  - vm_compute. reflexivity.
Defined.

End Policies.

(** ** Flattening the scraped tree *)

Section ChunkedRead.

Import Flatten.
Import Equations.Prop.Equations.

Lemma str_app_nil_r (s : string) : s +:+ "" = s.
Proof.
  induction s as [|c s IH]; [reflexivity|].
  change (String c (s +:+ "") = String c s). f_equal. exact IH.
Qed.

Lemma str_app_assoc (s t u : string) : (s +:+ t) +:+ u = s +:+ (t +:+ u).
Proof.
  induction s as [|c s IH]; [reflexivity|].
  change (String c ((s +:+ t) +:+ u) = String c (s +:+ (t +:+ u))).
  f_equal. exact IH.
Qed.

Lemma str_take_drop (n : nat) (s : string) : str_take n s +:+ str_drop n s = s.
Proof.
  revert s. induction n as [|n IH]; intros [|c rest]; try reflexivity.
  change (String c (str_take n rest +:+ str_drop n rest) = String c rest).
  f_equal. apply IH.
Qed.

Lemma read_inv (size : Z) (f : string) :
  ((size < - PY_SSIZE_T_MAX - 1 ∨ PY_SSIZE_T_MAX - PyBytesObject_SIZE < size)%Z
   ∧ read size f = Raise OverflowError)
  ∨ ((- PY_SSIZE_T_MAX - 1 <= size < -1)%Z ∧ read size f = Raise ValueError)
  ∨ (size = (-1)%Z ∧ read size f = Ok (f, EmptyString))
  ∨ ((0 <= size <= PY_SSIZE_T_MAX - PyBytesObject_SIZE)%Z
     ∧ read size f
       = Ok (str_take (Z.to_nat size) f, str_drop (Z.to_nat size) f)).
Proof.
  unfold read.
  destruct (size <? - PY_SSIZE_T_MAX - 1)%Z eqn:Hlow; simpl.
  { apply Z.ltb_lt in Hlow. auto. }
  destruct (PY_SSIZE_T_MAX - PyBytesObject_SIZE <? size)%Z eqn:Hhigh.
  { apply Z.ltb_lt in Hhigh. auto. }
  apply Z.ltb_ge in Hlow, Hhigh.
  destruct (size <? -1)%Z eqn:Hneg.
  { apply Z.ltb_lt in Hneg. right. left. auto. }
  apply Z.ltb_ge in Hneg.
  destruct (size <? 0)%Z eqn:Hzero.
  - apply Z.ltb_lt in Hzero. right. right. left. split; [lia|reflexivity].
  - apply Z.ltb_ge in Hzero. right. right. right. auto.
Qed.

(** A read returns a prefix of what is left and leaves the rest. *)
Lemma read_app (size : Z) (f chunk f' : string) :
  read size f = Ok (chunk, f') → f = chunk +:+ f'.
Proof.
  destruct (read_inv size f) as [[_ ->]|[[_ ->]|[[_ ->]|[_ ->]]]];
    try discriminate; intros [= <- <-].
  - symmetry. apply str_app_nil_r.
  - symmetry. apply str_take_drop.
Qed.

(** With a size other than 0, only the end of the file reads empty. *)
Lemma read_empty (size : Z) (f f' : string) :
  size ≠ 0%Z → read size f = Ok (EmptyString, f') → f = EmptyString.
Proof.
  intros Hsize.
  destruct (read_inv size f) as [[_ ->]|[[_ ->]|[[_ ->]|[Hpos ->]]]];
    try discriminate.
  - intros [= -> _]. reflexivity.
  - destruct (Z.to_nat size) as [|n] eqn:Hn; [lia|].
    destruct f as [|c rest]; [reflexivity|]. simpl. discriminate.
Qed.

(** The sizes of the script's range: no read raises. *)
Lemma read_raise (size : Z) (f : string) (err : PyError) :
  (0 <= size <= PY_SSIZE_T_MAX - PyBytesObject_SIZE)%Z →
  read size f = Raise err → False.
Proof.
  intros Hsize.
  destruct (read_inv size f) as [[? ->]|[[? ->]|[[? ->]|[_ ->]]]];
    try discriminate; unfold PY_SSIZE_T_MAX, PyBytesObject_SIZE in *; lia.
Qed.

Lemma read_loop_all (chunk_size : Z) (f h : string) :
  (0 < chunk_size <= PY_SSIZE_T_MAX - PyBytesObject_SIZE)%Z →
  read_loop chunk_size f h = Ok (h +:+ f).
Proof.
  intros Hsize.
  assert (0 <= chunk_size <= PY_SSIZE_T_MAX - PyBytesObject_SIZE)%Z
    as Hrange by lia.
  assert (chunk_size ≠ 0%Z) as Hnz by lia.
  funelim (read_loop chunk_size f h);
    try (exfalso; exact (read_raise _ _ _ Hrange e)).
  - rewrite (read_empty _ _ _ Hnz e). f_equal. symmetry.
    apply str_app_nil_r.
  - rewrite H by assumption. rewrite (read_app _ _ _ _ e). f_equal.
    apply str_app_assoc.
Qed.



End ChunkedRead.

Local Set Warnings "-clear-no-such-hyp".

Lemma size_new_name (n : string) (N D : gset string) :
  n ∉ D → size (({[n]} ∪ N) ∖ D) = 1 + size (N ∖ ({[n]} ∪ D)).
Proof.
  intros Hn.
  assert (({[n]} ∪ N) ∖ D = {[n]} ∪ N ∖ ({[n]} ∪ D)) as ->.
  { apply set_eq. intros x. destruct (decide (x = n)); set_solver. }
  assert ({[n]} ## N ∖ ({[n]} ∪ D)) as Hdisj by set_solver.
  rewrite (size_union _ _ Hdisj), size_singleton. reflexivity.
Qed.

Section Flattening.

Import Flatten.

Variable sha1 : string → string.


Lemma image_ext (path : Path) :
  is_image path = true →
  is_file path = true ∧ lower (suffix path) ∈ IMAGE_EXTS
  ∧ dst_name sha1 path = Ok (hashed_name sha1 path).
Proof.
  unfold is_image. intros H. apply andb_prop in H as [Hfile Hext].
  apply bool_decide_eq_true in Hext. split; [exact Hfile|].
  split; [exact Hext|].
  unfold dst_name, sha1_of_file, hashed_name.
  rewrite read_loop_all
    by (unfold PY_SSIZE_T_MAX, PyBytesObject_SIZE; lia).
  simpl.
  destruct (lower (suffix path)) eqn:E; [|reflexivity].
  exfalso. revert Hext. unfold IMAGE_EXTS.
  rewrite !elem_of_union, !elem_of_singleton. intuition discriminate.
Qed.

(** With the chunk size of the script no read raises: a visit gives a
    state. *)
Lemma visit_spec (st : State) (p : Path) :
  visit sha1 st p
  = Ok (if is_image p then
          match output_dir st !! hashed_name sha1 p with
          | Some _ =>
              {| output_dir := output_dir st;
                 count_total := count_total st + 1;
                 count_copied := count_copied st;
                 count_skipped := count_skipped st + 1 |}
          | None =>
              {| output_dir :=
                   <[hashed_name sha1 p := contents p]> (output_dir st);
                 count_total := count_total st + 1;
                 count_copied := count_copied st + 1;
                 count_skipped := count_skipped st |}
          end
        else st).
Proof.
  unfold visit. destruct (is_image p) eqn:Himg; [|reflexivity].
  destruct (image_ext p Himg) as (_ & _ & ->). simpl.
  destruct (output_dir st !! hashed_name sha1 p); reflexivity.
Qed.

Lemma walk_cons (st : State) (p : Path) (rest : list Path) :
  walk sha1 st (p :: rest)
  = walk sha1
      (if is_image p then
         match output_dir st !! hashed_name sha1 p with
         | Some _ =>
             {| output_dir := output_dir st;
                count_total := count_total st + 1;
                count_copied := count_copied st;
                count_skipped := count_skipped st + 1 |}
         | None =>
             {| output_dir :=
                  <[hashed_name sha1 p := contents p]> (output_dir st);
                count_total := count_total st + 1;
                count_copied := count_copied st + 1;
                count_skipped := count_skipped st |}
         end
       else st) rest.
Proof. simpl. rewrite visit_spec. reflexivity. Qed.

Lemma walk_ok (files : list Path) (st : State) :
  ∃ st', walk sha1 st files = Ok st'.
Proof.
  revert st. induction files as [|p rest IH]; intros st.
  - exists st. reflexivity.
  - rewrite walk_cons. apply IH.
Qed.

Lemma walk_counts (files : list Path) (st st' : State) :
  walk sha1 st files = Ok st' →
  count_total st' = count_total st + length (List.filter is_image files)
  ∧ count_copied st' + count_skipped st'
    = count_copied st + count_skipped st
      + length (List.filter is_image files).
Proof.
  revert st. induction files as [|p rest IH]; intros st.
  - intros [= <-]. simpl. lia.
  - rewrite walk_cons. intros H. destruct (IH _ H) as [-> ->]. simpl.
    destruct (is_image p); simpl; [|lia].
    destruct (output_dir st !! hashed_name sha1 p); simpl; lia.
Qed.

Lemma walk_from (files : list Path) (st st' : State) (n c : string) :
  walk sha1 st files = Ok st' →
  output_dir st' !! n = Some c →
  output_dir st !! n = Some c
  ∨ ∃ p, p ∈ files ∧ is_image p = true ∧ n = hashed_name sha1 p
      ∧ c = contents p.
Proof.
  revert st. induction files as [|p rest IH]; intros st.
  - intros [= <-]. auto.
  - rewrite walk_cons. intros Hw H.
    destruct (IH _ Hw H) as [H'|(q & Hin & ?)].
    + destruct (is_image p) eqn:Himg; [|auto].
      destruct (output_dir st !! hashed_name sha1 p) eqn:Hex; simpl in H';
        [auto|].
      destruct (decide (hashed_name sha1 p = n)) as [<-|Hne].
      * rewrite lookup_insert_eq in H'. injection H' as <-.
        right. exists p. split; [left|]. auto.
      * rewrite lookup_insert_ne in H' by exact Hne. auto.
    + right. exists q. split; [right; exact Hin|assumption].
Qed.

Lemma names_cons (p : Path) (rest : list Path) :
  (list_to_set (hashed_name sha1 <$> List.filter is_image (p :: rest))
     : gset string)
  = if is_image p
    then {[hashed_name sha1 p]}
         ∪ list_to_set (hashed_name sha1 <$> List.filter is_image rest)
    else list_to_set (hashed_name sha1 <$> List.filter is_image rest).
Proof. simpl. destruct (is_image p); reflexivity. Qed.

(** The names the image files of a list are copied under. *)
Lemma walk_dom (files : list Path) (st st' : State) :
  walk sha1 st files = Ok st' →
  dom (output_dir st')
  = dom (output_dir st)
    ∪ list_to_set (hashed_name sha1 <$> List.filter is_image files)
  ∧ count_copied st'
    = count_copied st
      + size (list_to_set (hashed_name sha1 <$> List.filter is_image files)
              ∖ dom (output_dir st) : gset string)
  ∧ output_dir st ⊆ output_dir st'.
Proof.
  revert st. induction files as [|p rest IH]; intros st.
  - intros [= <-]. simpl. split; [set_solver|]. split; [|done].
    rewrite difference_disjoint_L, size_empty by set_solver. lia.
  - rewrite names_cons, walk_cons. intros Hw.
    destruct (IH _ Hw) as (-> & -> & Hsub). clear Hw.
    destruct (is_image p) eqn:Himg; [|auto].
    destruct (output_dir st !! hashed_name sha1 p) eqn:Hex; simpl in *.
    + assert (hashed_name sha1 p ∈ dom (output_dir st)) as Hin
        by (apply elem_of_dom; eauto).
      split; [set_solver|]. split; [|exact Hsub].
      f_equal. f_equal. set_solver.
    + assert (hashed_name sha1 p ∉ dom (output_dir st)) as Hnin
        by (apply not_elem_of_dom; exact Hex).
      rewrite dom_insert_L. split; [set_solver|]. split.
      * rewrite (size_new_name _ _ _ Hnin). lia.
      * etrans; [|exact Hsub]. apply insert_subseteq, Hex.
Qed.

Lemma walk_again (files : list Path) (st st' : State) :
  walk sha1 st files = Ok st' →
  list_to_set (hashed_name sha1 <$> List.filter is_image files)
    ⊆ dom (output_dir st) →
  output_dir st' = output_dir st ∧ count_copied st' = count_copied st.
Proof.
  intros Hw Hsub. destruct (walk_dom files st st' Hw) as (Hdom & Hcopied & Hincl).
  split.
  - symmetry. apply subseteq_dom_eq; [exact Hincl|].
    rewrite Hdom. set_solver.
  - rewrite Hcopied.
    assert (list_to_set (hashed_name sha1 <$> List.filter is_image files)
              ∖ dom (output_dir st) = (∅ : gset string)) as -> by set_solver.
    rewrite size_empty. lia.
Qed.


(** X17. Every file that [flatten_images] adds to the output directory
    holds the bytes of an image file of the walk and is named by the
    digest of these bytes followed by the file's extension in lower case,
    one of [IMAGE_EXTS]: the fallback [".jpg"] of line 51 is never used. *)
Theorem flatten_names_by_content (files : list Path)
    (output_dir0 : gmap string string) (st : State) (n c : string) :
  flatten_images sha1 (Some files) output_dir0 = Ok st →
  output_dir st !! n = Some c →
  output_dir0 !! n = Some c
  ∨ ∃ p, p ∈ files ∧ is_file p = true ∧ lower (suffix p) ∈ IMAGE_EXTS
      ∧ n = sha1 c +:+ lower (suffix p) ∧ c = contents p.
Proof.
  simpl. intros Hst H.
  destruct (walk_from _ _ _ _ _ Hst H) as [?|(p & Hin & Himg & -> & ->)];
    [auto|].
  right. exists p. destruct (image_ext p Himg) as (? & ? & _).
  unfold hashed_name. auto.
Qed.

(** X18. [count_copied] is the number of distinct destination names of the
    image files of the walk that the output directory did not hold yet, and
    the output directory grows by exactly that many files: files with the
    same bytes and the same extension, up to case, are copied once. *)
Theorem flatten_copies_once_per_name (files : list Path)
    (output_dir0 : gmap string string) (st : State) :
  flatten_images sha1 (Some files) output_dir0 = Ok st →
  count_copied st
  = size (list_to_set (hashed_name sha1 <$> List.filter is_image files)
          ∖ dom output_dir0 : gset string)
  ∧ size (output_dir st) = size output_dir0 + count_copied st.
Proof.
  simpl. intros Hst.
  destruct (walk_dom _ _ _ Hst) as (Hdom & Hcopied & _).
  simpl in *. split; [exact Hcopied|].
  rewrite <- !size_dom, Hdom, Hcopied, size_union_alt. reflexivity.
Qed.

(** X19. [flatten_images] never rewrites a file of the output directory,
    and a second call on the same tree copies nothing: it leaves the
    directory as the first call left it and counts every image file as
    skipped. *)
Theorem flatten_again_copies_nothing (files : list Path)
    (output_dir0 : gmap string string) (st1 : State) :
  flatten_images sha1 (Some files) output_dir0 = Ok st1 →
  output_dir0 ⊆ output_dir st1
  ∧ ∃ st2, flatten_images sha1 (Some files) (output_dir st1) = Ok st2
      ∧ output_dir st2 = output_dir st1
      ∧ count_copied st2 = 0
      ∧ count_skipped st2 = count_total st1.
Proof.
  simpl. intros Hst1.
  destruct (walk_dom _ _ _ Hst1) as (Hdom & _ & Hincl).
  split; [exact Hincl|].
  destruct (walk_ok files (mkState (output_dir st1) 0 0 0)) as [st2 Hst2].
  exists st2. split; [exact Hst2|].
  destruct (walk_again _ _ _ Hst2) as [Hdir Hcopied].
  { simpl. rewrite Hdom. set_solver. }
  destruct (walk_counts _ _ _ Hst2) as [Ht Hc].
  destruct (walk_counts _ _ _ Hst1) as [Ht1 _].
  simpl in *.
  split; [exact Hdir|]. split; [exact Hcopied|]. lia.
Qed.

End Flattening.


Lemma flatten_names_by_content_witness :
  ∃ p, p ∈ [mkPath "A.PNG" ".PNG" true "abc" open_fails] ∧ is_file p = true
    ∧ lower (suffix p) ∈ Flatten.IMAGE_EXTS
    ∧ "#abc.png" = ("#" +:+ "abc") +:+ lower (suffix p) ∧ "abc" = contents p.
Proof.
  pose proof (flatten_names_by_content (λ s, "#" +:+ s)
    [mkPath "A.PNG" ".PNG" true "abc" open_fails] ∅
    (Flatten.mkState {["#abc.png" := "abc"]} 1 1 0) "#abc.png" "abc")
    as Hfrom.
  destruct Hfrom as [H|H];
    [vm_compute; reflexivity|vm_compute; reflexivity| |exact H].
  exfalso. rewrite lookup_empty in H. discriminate.
Defined.

Lemma flatten_copies_once_per_name_witness :
  Flatten.flatten_images (λ s, "#" +:+ s)
    (Some [mkPath "a.png" ".png" true "abc" open_fails;
           mkPath "B.PNG" ".PNG" true "abc" open_fails;
           mkPath "c.gif" ".gif" true "abc" open_fails])
    ∅
  = Ok (Flatten.mkState {["#abc.gif" := "abc"; "#abc.png" := "abc"]} 3 2 1)
  ∧ size ({["#abc.gif" := "abc"; "#abc.png" := "abc"]} : gmap string string)
    = size (∅ : gmap string string) + 2.
Proof.
  assert (Flatten.flatten_images (λ s, "#" +:+ s)
    (Some [mkPath "a.png" ".png" true "abc" open_fails;
           mkPath "B.PNG" ".PNG" true "abc" open_fails;
           mkPath "c.gif" ".gif" true "abc" open_fails])
    ∅
  = Ok (Flatten.mkState {["#abc.gif" := "abc"; "#abc.png" := "abc"]} 3 2 1))
    as Hrun by (vm_compute; reflexivity).
  split; [exact Hrun|].
  exact (proj2 (flatten_copies_once_per_name _ _ _ _ Hrun)).
Defined.

Lemma flatten_again_copies_nothing_witness :
  ∃ st2, Flatten.flatten_images (λ s, "#" +:+ s)
           (Some [mkPath "a.png" ".png" true "abc" open_fails;
                  mkPath "B.PNG" ".PNG" true "abc" open_fails])
           {["#abc.png" := "abc"]} = Ok st2
    ∧ Flatten.count_copied st2 = 0.
Proof.
  destruct (flatten_again_copies_nothing (λ s, "#" +:+ s)
    [mkPath "a.png" ".png" true "abc" open_fails;
     mkPath "B.PNG" ".PNG" true "abc" open_fails] ∅
    (Flatten.mkState {["#abc.png" := "abc"]} 2 1 1))
    as (_ & st2 & H2 & _ & Hc & _); [vm_compute; reflexivity|].
  exists st2. split; [exact H2|exact Hc].
Defined.

(** ** Names of the preprocessed images *)

Section Numbering.

Import Preprocess.

Lemma pretty_N_go_head (x : N) (s : string) :
  (0 < x)%N →
  ∃ c t, pretty_N_go x s = String c t ∧ c ≠ Ascii.ascii_of_nat 48.
Proof.
  revert s. induction (N.lt_wf_0 x) as [x _ IH]; intros s Hx.
  rewrite pretty_N_go_step by exact Hx.
  destruct (decide (x `div` 10 = 0)%N) as [Hz|Hnz].
  - rewrite Hz, pretty_N_go_0. eexists _, _. split; [reflexivity|].
    assert (x < 10)%N as Hlt
      by (apply (N.div_small_iff x 10); first [lia|exact Hz]).
    rewrite N.mod_small by exact Hlt.
    assert (x = 1 ∨ x = 2 ∨ x = 3 ∨ x = 4 ∨ x = 5 ∨ x = 6
            ∨ x = 7 ∨ x = 8 ∨ x = 9)%N as Hcases by lia.
    destruct Hcases as [->|[->|[->|[->|[->|[->|[->|[->| ->]]]]]]]];
      discriminate.
  - apply IH; [apply N.div_lt; lia|].
    apply N.neq_0_lt_0. exact Hnz.
Qed.

Lemma pretty_nat_head (idx : nat) :
  1 ≤ idx →
  ∃ c t, pretty idx = String c t ∧ c ≠ Ascii.ascii_of_nat 48.
Proof.
  intros Hidx. unfold pretty, pretty_nat, pretty, pretty_N.
  destruct (decide (N.of_nat idx = 0%N)); [lia|].
  apply pretty_N_go_head. lia.
Qed.

Lemma zeros_app_inj (m n : nat) (c c' : Ascii.ascii) (s t : string) :
  c ≠ Ascii.ascii_of_nat 48 → c' ≠ Ascii.ascii_of_nat 48 →
  zeros m +:+ String c s = zeros n +:+ String c' t →
  String c s = String c' t.
Proof.
  intros Hc Hc'. revert n. induction m as [|m IH]; intros [|n]; simpl.
  - auto.
  - intros [= -> _]. exfalso. apply Hc. reflexivity.
  - intros [= <- _]. exfalso. apply Hc'. reflexivity.
  - intros [= H]. apply (IH n H).
Qed.

Lemma format_08d_inj (a b : nat) :
  1 ≤ a → 1 ≤ b → format_08d a = format_08d b → a = b.
Proof.
  intros Ha Hb. unfold format_08d.
  destruct (pretty_nat_head a Ha) as (c & s & Es & Hc).
  destruct (pretty_nat_head b Hb) as (c' & t & Et & Hc').
  generalize (8 - String.length (pretty a)), (8 - String.length (pretty b)).
  intros m n. rewrite Es, Et. intros H.
  apply (inj pretty). rewrite Es, Et.
  exact (zeros_app_inj m n c c' s t Hc Hc' H).
Qed.

Lemma str_app_inj_r (s t u : string) : s +:+ u = t +:+ u → s = t.
Proof.
  intros H.
  assert (String.length s = String.length t) as Hlen.
  { apply (f_equal String.length) in H.
    assert (∀ a b, String.length (a +:+ b)
                   = String.length a + String.length b) as Happ.
    { intros a b. induction a as [|x a IHa]; [reflexivity|].
      change (S (String.length (a +:+ b))
              = S (String.length a + String.length b)).
      f_equal. exact IHa. }
    rewrite !Happ in H. lia. }
  revert t H Hlen. induction s as [|x s IH]; intros [|y t] H Hlen;
    try discriminate; [reflexivity|].
  change (String x (s +:+ u) = String y (t +:+ u)) in H.
  injection H as -> H. f_equal. apply IH; [exact H|].
  simpl in Hlen. lia.
Qed.

Lemma out_name_inj (a b : nat) :
  1 ≤ a → 1 ≤ b → out_name a = out_name b → a = b.
Proof.
  intros Ha Hb H. unfold out_name in H.
  apply (inj (String.app "img_")) in H.
  apply str_app_inj_r in H. exact (format_08d_inj a b Ha Hb H).
Qed.

End Numbering.

(** ** Runs of the preprocessing *)

Section Preprocessing.

Import Preprocess.

Lemma process_accepted (st : State) (p : Path) :
  accepted p = true →
  ∃ s, rendered p = Some s
    ∧ process st p
      = {| DST_DIR := <[out_name (counter st) := s]> (DST_DIR st);
           counter := counter st + 1;
           num_input := num_input st + 1;
           num_saved := num_saved st + 1;
           num_skipped := num_skipped st |}.
Proof.
  unfold accepted, rendered, process. intros H.
  apply andb_prop in H as [H Hsize]. apply andb_prop in H as [-> ->].
  destruct (image p) as [| | |w h r]; try discriminate. simpl.
  apply negb_true_iff in Hsize. rewrite Hsize. eauto.
Qed.

Lemma process_not_accepted (st : State) (p : Path) :
  accepted p = false →
  DST_DIR (process st p) = DST_DIR st
  ∧ counter (process st p) = counter st
  ∧ num_saved (process st p) = num_saved st
  ∧ num_input (process st p) + num_saved st + num_skipped st
    = num_input st + num_saved st + num_skipped (process st p).
Proof.
  unfold accepted, process.
  destruct (is_file p), (is_image p); simpl; try (intros _; repeat split; lia).
  destruct (image p) as [| | |w h r]; simpl; try (intros _; repeat split; lia).
  intros H. apply negb_false_iff in H. rewrite H. simpl. repeat split; lia.
Qed.

Lemma foldl_process_counts (files : list Path) (st : State) :
  num_saved (foldl process st files)
  = num_saved st + length (List.filter accepted files)
  ∧ counter (foldl process st files)
    = counter st + length (List.filter accepted files)
  ∧ num_input (foldl process st files)
    = num_input st
      + length (List.filter (λ p, is_file p && is_image p) files)
  ∧ num_input (foldl process st files) + num_saved st + num_skipped st
    = num_input st + num_saved (foldl process st files)
      + num_skipped (foldl process st files).
Proof.
  revert st. induction files as [|p rest IH]; intros st; simpl; [lia|].
  destruct (IH (process st p)) as (Hs & Hc & Hi & Hsum).
  assert (num_input (process st p)
          = num_input st + (if is_file p && is_image p then 1 else 0))
    as Hin.
  { unfold process. destruct (is_file p), (is_image p); simpl; try lia.
    destruct (image p) as [| | |w h r]; simpl; try lia.
    destruct ((w <? MIN_SIZE)%Z || (h <? MIN_SIZE)%Z); simpl; lia. }
  destruct (accepted p) eqn:Hacc.
  - destruct (process_accepted st p Hacc) as (s & _ & Hp).
    assert (is_file p && is_image p = true) as Hcand.
    { unfold accepted in Hacc. apply andb_prop in Hacc as [? _]. assumption. }
    rewrite Hcand in *. rewrite Hp in *. simpl in *. lia.
  - destruct (process_not_accepted st p Hacc) as (_ & Hc' & Hs' & Hsum').
    destruct (is_file p && is_image p); simpl; lia.
Qed.

Lemma foldl_process_other (files : list Path) (st : State) (n : string) :
  (∀ j, counter st ≤ j → n ≠ out_name j) →
  DST_DIR (foldl process st files) !! n = DST_DIR st !! n.
Proof.
  revert st. induction files as [|p rest IH]; intros st Hn; simpl;
    [reflexivity|].
  destruct (accepted p) eqn:Hacc.
  - destruct (process_accepted st p Hacc) as (s & _ & Hp).
    rewrite IH; rewrite Hp; simpl.
    + apply lookup_insert_ne. intros E. exact (Hn (counter st) (le_n _) (eq_sym E)).
    + intros j Hj. apply Hn. lia.
  - destruct (process_not_accepted st p Hacc) as (Hd & Hc & _).
    rewrite IH; [rewrite Hd; reflexivity|].
    intros j Hj. apply Hn. lia.
Qed.

Lemma foldl_process_nth (files : list Path) (st : State) (k : nat)
    (p : Path) :
  1 ≤ counter st →
  List.filter accepted files !! k = Some p →
  DST_DIR (foldl process st files) !! out_name (counter st + k)
  = rendered p.
Proof.
  revert st k. induction files as [|q rest IH]; intros st k Hc Hk; simpl in *;
    [discriminate|].
  destruct (accepted q) eqn:Hacc.
  - destruct (process_accepted st q Hacc) as (s & Hs & Hp).
    destruct k as [|k]; simpl in Hk.
    + injection Hk as <-. rewrite Nat.add_0_r, foldl_process_other.
      * rewrite Hp. simpl. rewrite lookup_insert_eq. symmetry. exact Hs.
      * rewrite Hp. simpl. intros j Hj E.
        apply out_name_inj in E; lia.
    + replace (counter st + S k) with (counter (process st q) + k)
        by (rewrite Hp; simpl; lia).
      apply IH; [rewrite Hp; simpl; lia|exact Hk].
  - destruct (process_not_accepted st q Hacc) as (_ & Hc' & _).
    rewrite <- Hc'. apply IH; [lia|exact Hk].
Qed.

Lemma foldl_process_from (files : list Path) (st : State) (n : string)
    (s : Saved) :
  DST_DIR (foldl process st files) !! n = Some s →
  DST_DIR st !! n = Some s
  ∨ ∃ p, p ∈ files ∧ accepted p = true ∧ rendered p = Some s.
Proof.
  revert st. induction files as [|q rest IH]; intros st; simpl; [auto|].
  intros H. destruct (IH _ H) as [H'|(p & Hin & ?)].
  - destruct (accepted q) eqn:Hacc.
    + destruct (process_accepted st q Hacc) as (s' & Hs & Hp).
      rewrite Hp in H'. simpl in H'.
      destruct (decide (out_name (counter st) = n)) as [<-|Hne].
      * rewrite lookup_insert_eq in H'. injection H' as <-.
        right. exists q. split; [left|]. auto.
      * rewrite lookup_insert_ne in H' by exact Hne. auto.
    + destruct (process_not_accepted st q Hacc) as (Hd & _).
      rewrite Hd in H'. auto.
  - right. exists p. split; [right; exact Hin|assumption].
Qed.

(** X20. [preprocess] counts every candidate file once, as saved or as
    skipped; it saves exactly the candidates that decode to an image of at
    least 128 pixels on each side; and it takes a number from [counter]
    only when it saves, so the numbers used are 1 to [num_saved] without a
    gap. *)
Theorem preprocess_counts (src : list Path) (dst : gmap string Saved) :
  num_input (preprocess src dst)
  = length (List.filter (λ p, is_file p && is_image p) src)
  ∧ num_input (preprocess src dst)
    = num_saved (preprocess src dst) + num_skipped (preprocess src dst)
  ∧ num_saved (preprocess src dst) = length (List.filter accepted src)
  ∧ counter (preprocess src dst) = 1 + num_saved (preprocess src dst).
Proof.
  unfold preprocess.
  destruct (foldl_process_counts src (mkState dst 1 0 0 0))
    as (Hs & Hc & Hi & Hsum).
  simpl in *. lia.
Qed.

(** X21. The k-th file that [preprocess] accepts is saved under the name
    [img_] followed by k on eight digits and [.png], replacing what the
    destination held under that name; names that are not of this form for
    a k from 1 to [num_saved] keep what they held. Two files of one run
    never get the same name. *)
Theorem preprocess_numbers_files (src : list Path)
    (dst : gmap string Saved) :
  (∀ k p, List.filter accepted src !! k = Some p →
     DST_DIR (preprocess src dst) !! out_name (1 + k) = rendered p)
  ∧ (∀ n, (∀ k, 1 ≤ k ≤ num_saved (preprocess src dst) → n ≠ out_name k) →
       DST_DIR (preprocess src dst) !! n = dst !! n)
  ∧ (∀ j k, 1 ≤ j → 1 ≤ k → out_name j = out_name k → j = k).
Proof.
  unfold preprocess. split; [|split].
  - intros k p Hk.
    apply (foldl_process_nth src (mkState dst 1 0 0 0) k p); [simpl; lia|].
    exact Hk.
  - intros n Hn.
    destruct (foldl_process_counts src (mkState dst 1 0 0 0))
      as (Hs & _). simpl in Hs.
    rewrite Hs in Hn.
    { assert (∀ files st,
        (∀ k, counter st ≤ k < counter st + length (List.filter accepted files)
              → n ≠ out_name k) →
        DST_DIR (foldl process st files) !! n = DST_DIR st !! n) as Hgen.
      { induction files as [|q rest IH]; intros st Hk; simpl; [reflexivity|].
        simpl in Hk. destruct (accepted q) eqn:Hacc.
        - destruct (process_accepted st q Hacc) as (s & _ & Hp).
          rewrite IH; rewrite Hp; simpl.
          + apply lookup_insert_ne. intros E.
            apply (Hk (counter st)); [simpl; lia|symmetry; exact E].
          + intros k Hk'. apply Hk. simpl. lia.
        - destruct (process_not_accepted st q Hacc) as (Hd & Hc & _).
          rewrite IH; [rewrite Hd; reflexivity|].
          intros k Hk'. apply Hk. lia. }
      apply (Hgen src (mkState dst 1 0 0 0)). simpl.
      intros k Hk. apply Hn. lia. }
  - apply out_name_inj.
Qed.

(** X22. The padding keeps the whole picture and centres it: an image that
    is not square is pasted on a square canvas whose side is its longer
    side, at an offset that is never negative, leaves the picture inside
    the canvas, is 0 along the longer side and splits the margin along the
    shorter side in two parts that differ by at most one pixel; a square
    image is left as it is. What is saved is always 256 by 256. *)
Theorem padding_is_centred (source : string) (w h : Z) :
  saved_size (render source w h) = (256, 256)%Z
  ∧ (w = h →
     canvas (render source w h) = (w, h)
     ∧ paste_at (render source w h) = (0, 0)%Z)
  ∧ (w ≠ h →
     canvas (render source w h) = (Z.max w h, Z.max w h)
     ∧ (0 <= (paste_at (render source w h)).1)%Z
     ∧ (0 <= (paste_at (render source w h)).2)%Z
     ∧ ((paste_at (render source w h)).1 + w <= Z.max w h)%Z
     ∧ ((paste_at (render source w h)).2 + h <= Z.max w h)%Z
     ∧ (0 <= Z.max w h - w - 2 * (paste_at (render source w h)).1 <= 1)%Z
     ∧ (0 <= Z.max w h - h - 2 * (paste_at (render source w h)).2 <= 1)%Z
     ∧ ((paste_at (render source w h)).1 = 0%Z
        ∨ (paste_at (render source w h)).2 = 0%Z)).
Proof.
  unfold render.
  destruct (bool_decide (w ≠ h)) eqn:Hne.
  - apply bool_decide_eq_true in Hne. simpl.
    split; [reflexivity|]. split; [intros E; contradiction|].
    intros _. split; [reflexivity|].
    pose proof (Z.div_mod (Z.max w h - w) 2 ltac:(lia)) as Hx.
    pose proof (Z.mod_pos_bound (Z.max w h - w) 2 ltac:(lia)) as Hxm.
    pose proof (Z.div_mod (Z.max w h - h) 2 ltac:(lia)) as Hy.
    pose proof (Z.mod_pos_bound (Z.max w h - h) 2 ltac:(lia)) as Hym.
    destruct (Z.max_spec w h) as [[Hlt Hmax]|[Hle Hmax]]; rewrite Hmax in *.
    + replace ((h - h) / 2)%Z with 0%Z in * by (rewrite Z.sub_diag; reflexivity).
      repeat split; lia.
    + replace ((w - w) / 2)%Z with 0%Z in * by (rewrite Z.sub_diag; reflexivity).
      repeat split; lia.
  - apply bool_decide_eq_false in Hne. simpl.
    split; [reflexivity|]. split; [auto|]. intros E. exfalso. apply Hne, E.
Qed.

Lemma padding_is_centred_witness :
  canvas (render "px" 301 200) = (301, 301)%Z
  ∧ paste_at (render "px" 301 200) = (0, 50)%Z.
Proof.
  destruct (padding_is_centred "px" 301 200) as (_ & _ & H).
  destruct H as (Hc & _); [discriminate|].
  split; [exact Hc|reflexivity].
Defined.

(** X23. Every image that [preprocess] puts in the destination comes from
    a candidate file whose decoded image is at least 128 pixels wide and
    128 pixels high, and is what [render] makes of it; files that cannot
    be opened or decoded, and smaller images, leave nothing there. *)
Theorem saved_images_are_large_enough (src : list Path)
    (dst : gmap string Saved) (n : string) (s : Saved) :
  DST_DIR (preprocess src dst) !! n = Some s →
  dst !! n = Some s
  ∨ ∃ p w h results, p ∈ src ∧ is_file p = true ∧ is_image p = true
      ∧ image p = pixels w h results
      ∧ (128 <= w)%Z ∧ (128 <= h)%Z
      ∧ s = render (contents p) w h.
Proof.
  intros H. unfold preprocess in H.
  destruct (foldl_process_from _ _ _ _ H) as [?|(p & Hin & Hacc & Hr)];
    [auto|].
  right. unfold accepted, rendered in *.
  apply andb_prop in Hacc as [Hcand Hsize].
  apply andb_prop in Hcand as [Hfile Himg].
  destruct (image p) as [| | |w h results] eqn:Hi; try discriminate.
  injection Hr as <-. apply negb_true_iff, orb_false_iff in Hsize as [Hw Hh].
  apply Z.ltb_ge in Hw, Hh. unfold MIN_SIZE in *.
  exists p, w, h, results. repeat split; try assumption; reflexivity.
Qed.

End Preprocessing.

Lemma preprocess_numbers_files_witness :
  Preprocess.DST_DIR
    (Preprocess.preprocess
       [mkPath "a.png" ".png" true "aa" (pixels 300 200 []);
        mkPath "tiny.png" ".png" true "tt" (pixels 20 20 []);
        mkPath "b.jpg" ".jpg" true "bb" (pixels 200 200 [])] ∅)
    !! "img_00000002.png"
  = Some (Preprocess.mkSaved "bb" (200, 200)%Z (0, 0)%Z (256, 256)%Z).
Proof.
  apply (proj1 (preprocess_numbers_files
    [mkPath "a.png" ".png" true "aa" (pixels 300 200 []);
     mkPath "tiny.png" ".png" true "tt" (pixels 20 20 []);
     mkPath "b.jpg" ".jpg" true "bb" (pixels 200 200 [])] ∅) 1
    (mkPath "b.jpg" ".jpg" true "bb" (pixels 200 200 []))).
  vm_compute. reflexivity.
Defined.

Lemma saved_images_are_large_enough_witness :
  ∃ p w h results,
    p ∈ [mkPath "a.png" ".png" true "aa" (pixels 300 200 [])]
    ∧ is_file p = true ∧ Preprocess.is_image p = true
    ∧ image p = pixels w h results ∧ (128 <= w)%Z ∧ (128 <= h)%Z
    ∧ Preprocess.mkSaved "aa" (300, 300)%Z (0, 50)%Z (256, 256)%Z
      = Preprocess.render (contents p) w h.
Proof.
  pose proof (saved_images_are_large_enough
    [mkPath "a.png" ".png" true "aa" (pixels 300 200 [])] ∅
    "img_00000001.png"
    (Preprocess.mkSaved "aa" (300, 300)%Z (0, 50)%Z (256, 256)%Z)) as H.
  destruct H as [H|H]; [vm_compute; reflexivity| |exact H].
  exfalso. rewrite lookup_empty in H. discriminate.
Defined.
